(** * The e-learning schema of [elearn/models_fixed.py]

    The file declares thirteen Django models.  The development below embeds
    - the declarations themselves (relations, uniqueness, validators) as data,
    - the relational store the declarations are mapped onto (rows keyed by
      model and primary key, constraint checks on write, the deletion
      collector),
    - the three hand-written methods [Profile.clean], [Notes.delete] and
      [Learner.get_unanswered_questions],
    - [Model.clean_fields] on a [Quiz], field by field as the declarations
      of the class have it. *)

From Stdlib Require Import ZArith QArith Lia Ascii.
From stdpp Require Import base option list gmap sets strings finite sorting relations.

Local Open Scope Z_scope.
Local Open Scope string_scope.

(** ** Model classes *)

(** One constructor per [models.Model] subclass of the file.  The last two
    are the intermediary tables Django creates for the [ManyToManyField]s
    that name no [through] model ([Learner.interests],
    [Instructor.expertise]). *)
Inductive model :=
  | User | Profile | Announcement | Course | Tutorial | Notes | Quiz
  | Question | Answer | Learner | Instructor | TakenQuiz | LearnerAnswer
  | Learner_interests | Instructor_expertise.

Definition all_models : list model :=
  [User; Profile; Announcement; Course; Tutorial; Notes; Quiz; Question;
   Answer; Learner; Instructor; TakenQuiz; LearnerAnswer;
   Learner_interests; Instructor_expertise].

#[global] Instance model_eq_dec : EqDecision model.
Proof. solve_decision. Defined.

#[global] Program Instance model_finite : Finite model := {| enum := all_models |}.
Next Obligation. apply (bool_decide_unpack _). by vm_compute. Qed.
Next Obligation. intros []; apply (bool_decide_unpack _); by vm_compute. Qed.

(** ** Column values and rows *)

Inductive value :=
  | VNull
  | VInt (z : Z)
  | VStr (s : string)
  | VBool (b : bool)
  | VFloat (q : Q).

#[global] Instance Q_eq_dec : EqDecision Q.
Proof. solve_decision. Defined.

#[global] Instance value_eq_dec : EqDecision value.
Proof. solve_decision. Defined.

(** A row maps attribute names to values; a table entry is addressed by its
    model and primary key. *)
Abbreviation row := (gmap string value).
Abbreviation key := (model * Z)%type.
Abbreviation db := (gmap (model * Z) (gmap string value)).

(** The target primary key held by a relation attribute ([<field>_id]). *)
Definition fk (f : string) (r : row) : option Z :=
  match r !! f with
  | Some (VInt z) => Some z
  | _ => None
  end.

(** ** Relations *)

Inductive on_delete := CASCADE | DO_NOTHING.

#[global] Instance on_delete_eq_dec : EqDecision on_delete.
Proof. solve_decision. Defined.

Record relation := Relation {
  rel_field : string;
  rel_to : model;
  rel_on_delete : on_delete;
  rel_unique : bool;
  rel_primary_key : bool
}.

#[global] Instance relation_eq_dec : EqDecision relation.
Proof. solve_decision. Defined.

Definition ForeignKey (f : string) (to : model) (od : on_delete) : relation :=
  Relation f to od false false.

Definition OneToOneField (f : string) (to : model) (od : on_delete)
    (primary_key : bool) : relation :=
  Relation f to od true primary_key.

(** The relation attributes of every model, in declaration order. *)
Definition relations (m : model) : list relation :=
  match m with
  | User => []
  | Profile => [OneToOneField "user" User CASCADE false]
  | Announcement => [ForeignKey "user" User CASCADE]
  | Course => []
  | Tutorial => [ForeignKey "course" Course CASCADE; ForeignKey "user" User CASCADE]
  | Notes => [ForeignKey "course" Course CASCADE; ForeignKey "user" User CASCADE]
  | Quiz => [ForeignKey "owner" User CASCADE; ForeignKey "course" Course CASCADE]
  | Question => [ForeignKey "quiz" Quiz CASCADE]
  | Answer => [ForeignKey "question" Question CASCADE]
  | Learner => [OneToOneField "user" User CASCADE true]
  | Instructor => [OneToOneField "user" User CASCADE false]
  | TakenQuiz => [ForeignKey "learner" Learner CASCADE; ForeignKey "quiz" Quiz CASCADE]
  | LearnerAnswer =>
      [ForeignKey "student" Learner CASCADE; ForeignKey "answer" Answer CASCADE;
       ForeignKey "question" Question CASCADE]
  | Learner_interests =>
      [ForeignKey "learner" Learner CASCADE; ForeignKey "course" Course CASCADE]
  | Instructor_expertise =>
      [ForeignKey "instructor" Instructor CASCADE; ForeignKey "course" Course CASCADE]
  end.

(** ** Uniqueness declarations *)

(** Attributes declared with [unique=True]. *)
Definition unique_fields (m : model) : list string :=
  match m with
  | Profile => ["email"]
  | Course => ["name"]
  | _ => []
  end.

(** [Meta.unique_together]; the intermediary tables are unique on their pair
    of relations. *)
Definition unique_together (m : model) : list (list string) :=
  match m with
  | TakenQuiz => [["learner"; "quiz"; "attempt_number"]]
  | LearnerAnswer => [["student"; "question"]]
  | Learner_interests => [["learner"; "course"]]
  | Instructor_expertise => [["instructor"; "course"]]
  | _ => []
  end.

(** Every column set the store keeps unique for a model. *)
Definition unique_sets (m : model) : list (list string) :=
  ((λ f, [f]) <$> unique_fields m)
  ++ ((λ rel, [rel_field rel]) <$> filter (λ rel, rel_unique rel = true) (relations m))
  ++ unique_together m.

(** ** Exceptions *)

Inductive error :=
  | IntegrityError
  | ValidationError (msg : string)
  | ValueError.

Inductive result (A : Type) :=
  | Ok (a : A)
  | Raise (e : error).
Arguments Ok {A} a.
Arguments Raise {A} e.

#[global] Instance error_eq_dec : EqDecision error.
Proof. solve_decision. Defined.

#[global] Instance result_eq_dec `{EqDecision A} : EqDecision (result A).
Proof. solve_decision. Defined.

(** ** Store-level constraints *)

(** The values a row holds in a column set; [None] when a column is absent
    or null (none of the constrained columns is declared [null=True]). *)
Definition column (r : row) (f : string) : option value :=
  match r !! f with
  | None | Some VNull => None
  | Some v => Some v
  end.

Definition key_of (fs : list string) (r : row) : option (list value) :=
  mapM (column r) fs.

(** Another row of the same model holds the same values in [fs]. *)
Definition unique_conflict (m : model) (pk : Z) (r : row) (d : db)
    (fs : list string) : Prop :=
  map_Exists (λ (k : key) (r' : row),
    k.1 = m ∧ k.2 ≠ pk ∧ key_of fs r' = key_of fs r) d.

#[global] Instance unique_conflict_dec m pk r d fs :
  Decision (unique_conflict m pk r d fs).
Proof. unfold unique_conflict. apply _. Defined.

(** The row the relation attribute points to. *)
Definition fk_target (rel : relation) (r : row) : option key :=
  z ← fk (rel_field rel) r; Some (rel_to rel, z).

(** The relation attribute holds the key of a stored parent (and the row's
    own key when it is the primary key). *)
Definition fk_valid (d : db) (pk : Z) (r : row) (rel : relation) : Prop :=
  match fk_target rel r with
  | Some t => is_Some (d !! t) ∧ (rel_primary_key rel = true → t.2 = pk)
  | None => False
  end.

#[global] Instance fk_valid_dec d pk r rel : Decision (fk_valid d pk r rel).
Proof. unfold fk_valid. destruct (fk_target rel r); apply _. Defined.

Definition constraints_ok (m : model) (pk : Z) (r : row) (d : db) : Prop :=
  Forall (λ fs, is_Some (key_of fs r) ∧ ¬ unique_conflict m pk r d fs) (unique_sets m)
  ∧ Forall (fk_valid d pk r) (relations m).

#[global] Instance constraints_ok_dec m pk r d : Decision (constraints_ok m pk r d).
Proof. unfold constraints_ok. apply _. Defined.

(** Writing the row with primary key [pk]: an UPDATE when the key is stored
    and an INSERT otherwise ([Model.save] with the key set).  Neither runs
    [clean]. *)
Definition save (m : model) (pk : Z) (r : row) (d : db) : result unit * db :=
  if decide (constraints_ok m pk r d)
  then (Ok (), <[(m, pk) := r]> d)
  else (Raise IntegrityError, d).

(** A forced INSERT: the primary key itself must be new. *)
Definition insert (m : model) (pk : Z) (r : row) (d : db) : result unit * db :=
  if decide (is_Some (d !! (m, pk)))
  then (Raise IntegrityError, d)
  else save m pk r d.

(** ** Deletion *)

(** A row goes with the collected set [S] when one of its relations cascades
    and points into [S]. *)
Definition cascades_into (S : gset key) (k : key) (r : row) : Prop :=
  Exists (λ rel, rel_on_delete rel = CASCADE ∧
                 match fk_target rel r with
                 | Some t => t ∈ S
                 | None => False
                 end) (relations k.1).

#[global] Instance cascades_into_dec S k r : Decision (cascades_into S k r).
Proof.
  unfold cascades_into. apply Exists_dec. intros rel.
  destruct (fk_target rel r); apply _.
Defined.

(** One round of the deletion collector: add the stored rows that cascade
    into the rows collected so far. *)
Definition collect_step (d : db) (S : gset key) : gset key :=
  S ∪ dom (filter (λ kr : key * row, cascades_into S kr.1 kr.2) d).

(** [Collector.collect]: the collector follows related objects until no new
    row turns up.  Every productive round adds a stored row, so [size d]
    rounds reach the end. *)
Fixpoint collect_rounds (d : db) (n : nat) (S : gset key) : gset key :=
  match n with
  | O => S
  | Datatypes.S n => collect_step d (collect_rounds d n S)
  end.

Definition Collector_collect (d : db) (root : key) : gset key :=
  collect_rounds d (size d) {[root]}.

(** [Model.delete] at the store: every collected row is removed. *)
Definition Model_delete (k : key) (d : db) : db :=
  filter (λ kr : key * row, kr.1 ∉ Collector_collect d k) d.

(** ** Query sets *)

(** A query set is the sub-map of the rows it selects. *)
Definition objects (m : model) (d : db) : db :=
  filter (λ kr : key * row, kr.1.1 = m) d.

(** [.filter(f=v)] *)
Definition filter_eq (f : string) (v : value) (qs : db) : db :=
  filter (λ kr : key * row, kr.2 !! f = Some v) qs.

(** [.exclude(pk=p)]; a [None] key excludes nothing. *)
Definition exclude_pk (p : option Z) (qs : db) : db :=
  filter (λ kr : key * row, Some kr.1.2 ≠ p) qs.

(** [.exists()] *)
Definition exists_ (qs : db) : bool := bool_decide (qs ≠ ∅).

(** ** Model instances *)

(** The Python object: its class, its primary key ([None] until saved) and
    its attribute values. *)
Record instance := Instance {
  inst_model : model;
  inst_pk : option Z;
  inst_fields : row
}.

Definition getattr (self : instance) (f : string) : value :=
  default VNull (inst_fields self !! f).

Definition setattr (self : instance) (f : string) (v : value) : instance :=
  Instance (inst_model self) (inst_pk self) (<[f := v]> (inst_fields self)).

(** Python truth value. *)
Definition truthy (v : value) : bool :=
  match v with
  | VNull => false
  | VInt z => bool_decide (z ≠ 0)
  | VStr s => bool_decide (s ≠ EmptyString)
  | VBool b => b
  | VFloat q => negb (Qeq_bool q 0)
  end.

(** ** [Profile.clean] *)

Definition Profile_clean (self : instance) (d : db) : result unit :=
  if truthy (getattr self "email")
     && exists_ (exclude_pk (inst_pk self)
                   (filter_eq "email" (getattr self "email") (objects Profile d)))
  then Raise (ValidationError "Email already exists")
  else Ok ().

(** ** [Learner.get_unanswered_questions] *)

(** [self.quiz_answers]: the reverse side of [LearnerAnswer.student]. *)
Definition quiz_answers (self : Z) (d : db) : db :=
  filter (λ kr : key * row, fk "student" kr.2 = Some self) (objects LearnerAnswer d).

(** The join [answer__question] from a learner answer: the key and the row
    of the question its answer belongs to. *)
Definition answer__question (d : db) (la : row) : option (Z * row) :=
  a ← fk "answer" la;
  ar ← d !! (Answer, a);
  q ← fk "question" ar;
  qr ← d !! (Question, q);
  Some (q, qr).

(** [.filter(answer__question__quiz=quiz).values_list('answer__question__pk', flat=True)] *)
Definition answered_questions (self quiz : Z) (d : db) : list Z :=
  omap (λ kr : key * row,
          qq ← answer__question d kr.2;
          if decide (fk "quiz" qq.2 = Some quiz) then Some qq.1 else None)
       (map_to_list (quiz_answers self d)).

(** [quiz.questions]: the reverse side of [Question.quiz]. *)
Definition questions (quiz : Z) (d : db) : db :=
  filter (λ kr : key * row, fk "quiz" kr.2 = Some quiz) (objects Question d).

(** [.exclude(pk__in=pks)] *)
Definition exclude_pk_in (pks : list Z) (qs : db) : db :=
  filter (λ kr : key * row, kr.1.2 ∉ pks) qs.

(** The [order] column of a question (field default [1]). *)
Definition order_of (r : row) : Z :=
  match r !! "order" with
  | Some (VInt z) => z
  | _ => 1
  end.

(** The comparison of [.order_by('order', 'id')]. *)
Definition order_id_le (x y : key * row) : Prop :=
  (order_of x.2 < order_of y.2
   ∨ (order_of x.2 = order_of y.2 ∧ x.1.2 ≤ y.1.2))%Z.

#[global] Instance order_id_le_dec x y : Decision (order_id_le x y).
Proof. unfold order_id_le. apply _. Defined.

Definition order_by_order_id (qs : db) : list (key * row) :=
  merge_sort order_id_le (map_to_list qs).

Definition get_unanswered_questions (self quiz : Z) (d : db) : list (key * row) :=
  let answered_questions := answered_questions self quiz d in
  let questions := order_by_order_id (exclude_pk_in answered_questions (questions quiz d)) in
  questions.

(** ** The world: store, blob storage and effect trace *)

Inductive event :=
  | StorageDelete (name : string)
  | RowSave (k : key)
  | RowsDelete (ks : gset key).

Record world := World {
  w_db : db;
  w_storage : gset string;
  w_log : list event
}.

(** Computations that read and write the world and may raise. *)
Definition M (A : Type) : Type := world → result A * world.

#[global] Instance M_ret : MRet M := λ A a w, (Ok a, w).

#[global] Instance M_bind : MBind M := λ A B f c w,
  match c w with
  | (Ok a, w') => f a w'
  | (Raise e, w') => (Raise e, w')
  end.

(** [Storage.delete(name)]: removing a name that is not stored is no error. *)
Definition storage_delete (name : string) : M unit := λ w,
  (Ok (), World (w_db w) (w_storage w ∖ {[name]}) (w_log w ++ [StorageDelete name])).

(** The next automatic primary key of a model. *)
Definition next_pk (m : model) (d : db) : Z :=
  1 + map_fold (λ (k : key) (_ : row) acc, if decide (k.1 = m) then Z.max acc k.2 else acc) 0 d.

(** [Model.save()] of an instance. *)
Definition Model_save (self : instance) : M instance := λ w,
  let pk := default (next_pk (inst_model self) (w_db w)) (inst_pk self) in
  let write := match inst_pk self with Some _ => save | None => insert end in
  match write (inst_model self) pk (inst_fields self) (w_db w) with
  | (Ok _, d') =>
      (Ok (Instance (inst_model self) (Some pk) (inst_fields self)),
       World d' (w_storage w) (w_log w ++ [RowSave (inst_model self, pk)]))
  | (Raise e, _) => (Raise e, w)
  end.

(** [Model.delete()] of an instance: an instance without primary key cannot
    be deleted; afterwards the instance has none. *)
Definition Model_delete_instance (self : instance) : M instance := λ w,
  match inst_pk self with
  | None => (Raise ValueError, w)
  | Some pk =>
      (Ok (Instance (inst_model self) None (inst_fields self)),
       World (Model_delete (inst_model self, pk) (w_db w)) (w_storage w)
             (w_log w ++ [RowsDelete (Collector_collect (w_db w) (inst_model self, pk))]))
  end.

(** [FieldFile.delete(save)] of the file attribute [f]: nothing for an unset
    file; otherwise the blob is removed from storage, the attribute is reset
    and the instance is saved when [save_] is set. *)
Definition FieldFile_delete (f : string) (save_ : bool) (self : instance) : M instance :=
  if negb (truthy (getattr self f)) then mret self
  else
    match getattr self f with
    | VStr name =>
        storage_delete name;;
        let self := setattr self f VNull in
        if save_ then Model_save self else mret self
    | _ => mret self
    end.

(** ** [Notes.delete] *)

Definition Notes_delete (self : instance) : M instance :=
  self ← (if truthy (getattr self "file")
          then FieldFile_delete "file" false self else mret self);
  self ← (if truthy (getattr self "cover")
          then FieldFile_delete "cover" false self else mret self);
  Model_delete_instance self.

(** ** Field validators *)

Inductive validator :=
  | MinValueValidator (limit : Q)
  | MaxValueValidator (limit : Q).

(** The [validators=[...]] arguments of the file. *)
Definition field_validators (m : model) : list (string * list validator) :=
  match m with
  | Tutorial => [("duration_minutes", [MinValueValidator 0])]
  | Quiz =>
      [("time_limit_minutes", [MinValueValidator 1; MaxValueValidator 180]);
       ("passing_score", [MinValueValidator 0; MaxValueValidator 100]);
       ("max_attempts", [MinValueValidator 1])]
  | Question => [("points", [MinValueValidator 1])]
  | Instructor => [("years_experience", [MinValueValidator 0])]
  | TakenQuiz => [("score", [MinValueValidator 0; MaxValueValidator 100])]
  | _ => []
  end%Q.

(** The number a numeric field holds.  An integer or a finite float is a
    rational, and the validators compare exactly. *)
Definition to_number (v : value) : option Q :=
  match v with
  | VInt z => Some (inject_Z z)
  | VFloat q => Some q
  | _ => None
  end.

Definition Qlt_bool (a b : Q) : bool := negb (Qle_bool b a).

(** [compare(a, b)] of the validator: true when the value is refused. *)
Definition compare (v : validator) (a : Q) : bool :=
  match v with
  | MinValueValidator b => Qlt_bool a b
  | MaxValueValidator b => Qlt_bool b a
  end.

Definition code (v : validator) : string :=
  match v with
  | MinValueValidator _ => "min_value"
  | MaxValueValidator _ => "max_value"
  end.

(** [Field.run_validators]: the codes of the validators that refuse. *)
Definition run_validators (vs : list validator) (a : Q) : list string :=
  code <$> filter (λ v, compare v a = true) vs.

(** ** [Model.clean_fields] on a quiz *)




(** A Python [str] is the sequence of its code points, which is what [len]
    counts. *)
Abbreviation text := (list N).



Section Field.
Context {A : Type}.
(** [value in self.empty_values] for a value that is not [None]: the empty
    string for a [str], never for a number. *)
Variable empty : A → bool.



End Field.




(** [connection.ops.integer_field_range('PositiveIntegerField')]: the bounds,
    if any, that the storage backend puts on the column. *)
Abbreviation integer_field_range := (option Z * option Z)%type.







(** ** Reachable stores *)

Inductive step : db → db → Prop :=
  | step_insert m pk r d d' : insert m pk r d = (Ok (), d') → step d d'
  | step_save m pk r d d' : save m pk r d = (Ok (), d') → step d d'
  | step_delete k d : step d (Model_delete k d).

Definition reachable (d : db) : Prop := rtc step ∅ d.

(** ** Properties named by the specification *)

(** The learner [self] has a recorded answer whose [Answer] belongs to the
    question [q], a question of [quiz]. *)
Definition has_answered (d : db) (self quiz q : Z) : Prop :=
  ∃ la_pk la a ar qr,
    d !! (LearnerAnswer, la_pk) = Some la ∧ fk "student" la = Some self ∧
    fk "answer" la = Some a ∧ d !! (Answer, a) = Some ar ∧
    fk "question" ar = Some q ∧ d !! (Question, q) = Some qr ∧
    fk "quiz" qr = Some quiz.

(** The method as a call on the world: a read only. *)
Definition Learner_get_unanswered_questions (self quiz : Z) : M (list (key * row)) :=
  λ w, (Ok (get_unanswered_questions self quiz (w_db w)), w).

(** Two stores hold the same rows of model [m]. *)
Definition same_table (m : model) (d1 d2 : db) : Prop :=
  ∀ pk : Z, d1 !! (m, pk) = d2 !! (m, pk).

(** Two stores differ at most in the [question] attribute of their
    [LearnerAnswer] rows. *)
Definition differ_in_question_only (d1 d2 : db) : Prop :=
  (∀ k : key, k.1 ≠ LearnerAnswer → d1 !! k = d2 !! k)
  ∧ (∀ pk : Z, delete "question" <$> d1 !! (LearnerAnswer, pk)
               = delete "question" <$> d2 !! (LearnerAnswer, pk)).

(** Every stored row satisfies the constraints of its model against the
    store it is in. *)
Definition consistent (d : db) : Prop :=
  map_Forall (λ (k : key) (r : row), constraints_ok k.1 k.2 r d) d.

(** The stored row [child] holds a relation attribute that points to
    [parent]. *)
Definition references (d : db) (child parent : key) : Prop :=
  ∃ r rel, d !! child = Some r ∧ rel ∈ relations child.1 ∧
           fk_target rel r = Some parent.

(** The blob a file attribute of an instance names, if it names one. *)
Definition blob (self : instance) (f : string) : list string :=
  match getattr self f with
  | VStr name => if decide (name = EmptyString) then [] else [name]
  | _ => []
  end.

(** ** Defaults, choices and lengths *)

(** The [default=...] arguments of the file. *)
Definition defaults (m : model) : list (string * value) :=
  match m with
  | User =>
      [("is_learner", VBool false); ("is_instructor", VBool false);
       ("is_admin", VBool false)]
  | Profile =>
      [("avatar", VStr "no-img.jpg"); ("first_name", VStr EmptyString);
       ("last_name", VStr EmptyString); ("birth_date", VStr "2000-01-01");
       ("bio", VStr EmptyString); ("city", VStr EmptyString);
       ("state", VStr EmptyString); ("country", VStr EmptyString);
       ("favorite_animal", VStr EmptyString); ("hobby", VStr EmptyString)]
  | Announcement => [("title", VStr "Announcement"); ("is_active", VBool true)]
  | Course =>
      [("color", VStr "#007bff"); ("description", VStr EmptyString);
       ("category", VStr "programming"); ("is_active", VBool true)]
  | Tutorial =>
      [("difficulty", VStr "beginner"); ("duration_minutes", VInt 0);
       ("is_published", VBool true); ("views_count", VInt 0)]
  | Notes => [("is_public", VBool true); ("download_count", VInt 0)]
  | Quiz =>
      [("description", VStr EmptyString); ("time_limit_minutes", VInt 30);
       ("passing_score", VFloat 70); ("status", VStr "draft");
       ("max_attempts", VInt 3)]
  | Question =>
      [("question_type", VStr "multiple_choice"); ("points", VInt 1);
       ("order", VInt 1)]
  | Answer => [("is_correct", VBool false); ("order", VInt 1)]
  | Learner => [("total_score", VFloat 0); ("quizzes_completed", VInt 0)]
  | Instructor =>
      [("bio", VStr EmptyString); ("years_experience", VInt 0);
       ("is_verified", VBool false)]
  | TakenQuiz =>
      [("time_taken_minutes", VInt 0); ("is_completed", VBool true);
       ("attempt_number", VInt 1)]
  | _ => []
  end.

#[global] Instance validator_eq_dec : EqDecision validator.
Proof. solve_decision. Defined.

(** The value is a number that the validators let through. *)
Definition passes (vs : list validator) (v : value) : Prop :=
  match to_number v with
  | Some a => run_validators vs a = []
  | None => False
  end.

#[global] Instance passes_dec vs v : Decision (passes vs v).
Proof. unfold passes. destruct (to_number v); apply _. Defined.

(** The stored values of the [choices=...] arguments. *)
Definition choices (m : model) : list (string * list string) :=
  match m with
  | Course =>
      [("category",
        ["programming"; "design"; "business"; "marketing"; "science"; "language"])]
  | Tutorial => [("difficulty", ["beginner"; "intermediate"; "advanced"])]
  | Quiz => [("status", ["draft"; "published"; "archived"])]
  | Question =>
      [("question_type", ["multiple_choice"; "true_false"; "short_answer"])]
  | _ => []
  end.

(** The [max_length=...] arguments. *)
Definition max_length (m : model) : list (string * nat) :=
  match m with
  | Profile =>
      [("first_name", 255); ("last_name", 255); ("phonenumber", 20);
       ("city", 255); ("state", 255); ("country", 255);
       ("favorite_animal", 255); ("hobby", 255)]
  | Announcement => [("title", 255)]
  | Course => [("name", 100); ("color", 7); ("category", 20)]
  | Tutorial => [("title", 200); ("difficulty", 15)]
  | Notes => [("title", 500)]
  | Quiz => [("name", 255); ("status", 10)]
  | Question => [("text", 500); ("question_type", 20)]
  | Answer => [("text", 255)]
  | _ => []
  end%nat.

(** ** [Course.get_html_badge] *)

Definition dquote : ascii := ascii_of_nat 34.

(** [django.utils.html.escape] on one character. *)
Definition escape_char (c : ascii) : string :=
  if decide (c = "&"%char) then "&amp;"
  else if decide (c = "<"%char) then "&lt;"
  else if decide (c = ">"%char) then "&gt;"
  else if decide (c = dquote) then "&quot;"
  else if decide (c = "'"%char) then "&#x27;"
  else String c EmptyString.

Fixpoint escape (s : string) : string :=
  match s with
  | EmptyString => EmptyString
  | String c s => escape_char c +:+ escape s
  end.

(** The badge of a course with the given [name] and [color] attributes; the
    template takes the colour first and the name second. *)
Definition get_html_badge (name color : string) : string :=
  let name := escape name in
  let color := escape color in
  "<span class=" +:+ String dquote "badge badge-primary" +:+ String dquote " style="
  +:+ String dquote "background-color: " +:+ color +:+ String dquote ">"
  +:+ name +:+ "</span>".

(** The number of occurrences of a character. *)
Fixpoint count_char (c : ascii) (s : string) : nat :=
  match s with
  | EmptyString => O
  | String c' s => ((if decide (c' = c) then 1 else 0) + count_char c s)%nat
  end.

(** The strict comparison of (order, id). *)
Definition order_id_lt (x y : key * row) : Prop :=
  (order_of x.2 < order_of y.2
   ∨ (order_of x.2 = order_of y.2 ∧ x.1.2 < y.1.2))%Z.

(** Two stores hold the same rows outside [LearnerAnswer] and the same
    answers of the learner [self]. *)
Definition same_answers_of (self : Z) (d1 d2 : db) : Prop :=
  (∀ k : key, k.1 ≠ LearnerAnswer → d1 !! k = d2 !! k)
  ∧ (∀ (pk : Z) (la : row), fk "student" la = Some self →
       d1 !! (LearnerAnswer, pk) = Some la ↔ d2 !! (LearnerAnswer, pk) = Some la).

(** A course row for the examples. *)
Definition course_row (name color : string) : row :=
  {[ "name" := VStr name; "color" := VStr color ]}.

(** ** The graph of relations between models *)

(** Model [c] declares a relation to model [m]. *)
Definition points_to (c m : model) : Prop :=
  Exists (λ rel, rel_to rel = m) (relations c).

#[global] Instance points_to_dec c m : Decision (points_to c m).
Proof. unfold points_to. apply _. Defined.

(** The models of [ms] together with those that declare a relation to one
    of them. *)
Definition dependants_step (ms : list model) : list model :=
  filter (λ c, c ∈ ms ∨ Exists (λ m, m ∈ ms ∧ points_to c m) all_models) all_models.

(** The models whose rows can hang, through a chain of relations, on a row
    of [m]. *)
Definition dependants (m : model) : list model :=
  Nat.iter (length all_models) dependants_step [m].

(** ** A small store *)

(** Two users (an instructor and a learner), a course with one quiz of four
    questions, two answers, and the learner's answer to question 2. *)
Definition question_row (quiz order : Z) : row :=
  {[ "quiz" := VInt quiz; "order" := VInt order ]}.

Definition learner_answer_row (student answer question : Z) : row :=
  {[ "student" := VInt student; "answer" := VInt answer; "question" := VInt question ]}.

Definition taken_quiz_row (learner quiz attempt_number : Z) : row :=
  {[ "learner" := VInt learner; "quiz" := VInt quiz;
     "attempt_number" := VInt attempt_number; "score" := VFloat 80 ]}.

Definition profile_row (user : Z) (email : string) : row :=
  {[ "user" := VInt user; "email" := VStr email ]}.

Definition quiz_row : row :=
  {[ "owner" := VInt 1; "course" := VInt 1; "name" := VStr "Loops";
     "time_limit_minutes" := VInt 30; "passing_score" := VFloat 70;
     "max_attempts" := VInt 3 ]}.

Definition notes_row : row :=
  {[ "course" := VInt 1; "user" := VInt 1; "title" := VStr "Week 1";
     "file" := VStr "notes/files/week1.pdf"; "cover" := VStr EmptyString ]}.

Definition sample_db : db :=
  <[(Notes, 4) := notes_row]>
  (<[(Profile, 1) := profile_row 1 "ann@example.org"]>
  (<[(TakenQuiz, 1) := taken_quiz_row 2 1 1]>
  (<[(LearnerAnswer, 7) := learner_answer_row 2 20 2]>
  (<[(Answer, 20) := {[ "question" := VInt 2 ]}]>
  (<[(Answer, 10) := {[ "question" := VInt 1 ]}]>
  (<[(Question, 4) := question_row 1 1]>
  (<[(Question, 3) := question_row 1 2]>
  (<[(Question, 2) := question_row 1 2]>
  (<[(Question, 1) := question_row 1 3]>
  (<[(Quiz, 1) := quiz_row]>
  (<[(Course, 1) := {[ "name" := VStr "Python Basics" ]}]>
  (<[(Learner, 2) := {[ "user" := VInt 2 ]}]>
  (<[(User, 2) := {[ "username" := VStr "bob" ]}]>
  (<[(User, 1) := {[ "username" := VStr "ann" ]}]> ∅)))))))))))))).

Definition sample_world : world :=
  World sample_db {[ "notes/files/week1.pdf"; "notes/files/week2.pdf" ]} [].

Definition sample_notes : instance := Instance Notes (Some 4) notes_row.





(* ================================================================== *)
(** * Theorems *)

(** ** Query sets *)

Lemma lookup_objects (m : model) (d : db) (k : key) (r : row) :
  objects m d !! k = Some r ↔ d !! k = Some r ∧ k.1 = m.
Proof. unfold objects. by rewrite map_lookup_filter_Some. Qed.

Lemma lookup_quiz_answers (self : Z) (d : db) (k : key) (r : row) :
  quiz_answers self d !! k = Some r ↔
  d !! k = Some r ∧ k.1 = LearnerAnswer ∧ fk "student" r = Some self.
Proof.
  unfold quiz_answers. rewrite map_lookup_filter_Some, lookup_objects. simpl. tauto.
Qed.

Lemma lookup_questions (quiz : Z) (d : db) (k : key) (r : row) :
  questions quiz d !! k = Some r ↔
  d !! k = Some r ∧ k.1 = Question ∧ fk "quiz" r = Some quiz.
Proof.
  unfold questions. rewrite map_lookup_filter_Some, lookup_objects. simpl. tauto.
Qed.

Lemma answer__question_Some (d : db) (la : row) (q : Z) (qr : row) :
  answer__question d la = Some (q, qr) ↔
  ∃ a ar, fk "answer" la = Some a ∧ d !! (Answer, a) = Some ar ∧
          fk "question" ar = Some q ∧ d !! (Question, q) = Some qr.
Proof.
  unfold answer__question. split.
  - intros Haq. destruct (fk "answer" la) as [a|] eqn:Ha; simpl in Haq; [|done].
    destruct (d !! (Answer, a)) as [ar|] eqn:Har; simpl in Haq; [|done].
    destruct (fk "question" ar) as [q'|] eqn:Hq; simpl in Haq; [|done].
    destruct (d !! (Question, q')) as [qr'|] eqn:Hqr; simpl in Haq; [|done].
    simplify_eq. eauto 10.
  - intros (a & ar & Ha & Har & Hq & Hqr).
    rewrite Ha; simpl. rewrite Har; simpl. rewrite Hq; simpl. by rewrite Hqr.
Qed.

Lemma elem_of_answered_questions (self quiz : Z) (d : db) (q : Z) :
  q ∈ answered_questions self quiz d ↔ has_answered d self quiz q.
Proof.
  unfold answered_questions, has_answered. rewrite list_elem_of_omap. split.
  - intros ([[m la_pk] la] & Hin & Hq).
    apply elem_of_map_to_list, lookup_quiz_answers in Hin as (Hla & Hm & Hst).
    simpl in *. subst m.
    destruct (answer__question d la) as [[q' qr]|] eqn:Haq; simpl in Hq; [|done].
    case_decide; [|done]. simplify_eq.
    apply answer__question_Some in Haq as (a & ar & ? & ? & ? & ?).
    eauto 15.
  - intros (la_pk & la & a & ar & qr & Hla & Hst & Ha & Har & Hq & Hqr & Hquiz).
    exists ((LearnerAnswer, la_pk), la). split.
    + apply elem_of_map_to_list, lookup_quiz_answers. done.
    + simpl. assert (answer__question d la = Some (q, qr)) as ->.
      { apply answer__question_Some. by exists a, ar. }
      simpl. by rewrite decide_True.
Qed.

(** ** The ordering of [order_by('order', 'id')] *)

#[global] Instance order_id_le_trans : Transitive order_id_le.
Proof. intros x y z. unfold order_id_le. lia. Qed.

#[global] Instance order_id_le_total : Total order_id_le.
Proof. intros x y. unfold order_id_le. lia. Qed.

(** C1. [get_unanswered_questions] returns exactly the questions of the quiz
    for which the learner has no recorded answer whose [Answer] belongs to a
    question of that quiz: a row is in the result if and only if it is a
    stored question of the quiz that the learner has not answered; the result
    is sorted by (order, id) and holds no row twice. *)
Theorem get_unanswered_questions_spec (d : db) (self quiz : Z) :
  (∀ (k : key) (r : row), (k, r) ∈ get_unanswered_questions self quiz d ↔
          ∃ q, k = (Question, q) ∧ d !! k = Some r ∧
               fk "quiz" r = Some quiz ∧ ¬ has_answered d self quiz q)
  ∧ StronglySorted order_id_le (get_unanswered_questions self quiz d)
  ∧ NoDup (get_unanswered_questions self quiz d).
Proof.
  unfold get_unanswered_questions, order_by_order_id. split_and!.
  - intros k r. rewrite merge_sort_Permutation, elem_of_map_to_list.
    unfold exclude_pk_in. rewrite map_lookup_filter_Some, lookup_questions.
    simpl. rewrite elem_of_answered_questions. destruct k as [m q]; simpl.
    split.
    + intros ((? & -> & ?) & ?). eauto.
    + intros (q' & ? & ? & ? & ?). simplify_eq. done.
  - apply StronglySorted_merge_sort; apply _.
  - rewrite merge_sort_Permutation. apply NoDup_map_to_list.
Qed.

(** A query set of unanswered questions is fixed by the questions of the quiz
    and by which of them count as answered. *)
Lemma get_unanswered_questions_ext (d1 d2 : db) (self quiz : Z) :
  questions quiz d1 = questions quiz d2 →
  (∀ q, has_answered d1 self quiz q ↔ has_answered d2 self quiz q) →
  get_unanswered_questions self quiz d1 = get_unanswered_questions self quiz d2.
Proof.
  intros Hqs Hans. unfold get_unanswered_questions, order_by_order_id, exclude_pk_in.
  rewrite Hqs. f_equal. f_equal. apply map_filter_ext. intros k r _. simpl.
  by rewrite !elem_of_answered_questions, Hans.
Qed.

Lemma questions_same_table (d1 d2 : db) (quiz : Z) :
  same_table Question d1 d2 → questions quiz d1 = questions quiz d2.
Proof.
  intros Hq. apply map_eq. intros [m pk]. apply option_eq. intros r.
  rewrite !lookup_questions. simpl. split; intros (Hr & -> & ?).
  - by rewrite <- Hq.
  - by rewrite Hq.
Qed.

Lemma has_answered_same_tables (d1 d2 : db) (self quiz q : Z) :
  same_table LearnerAnswer d1 d2 → same_table Question d1 d2 →
  same_table Answer d1 d2 →
  has_answered d1 self quiz q → has_answered d2 self quiz q.
Proof.
  intros Hla Hq Ha (la_pk & la & a & ar & qr & ? & ? & ? & ? & ? & ? & ?).
  exists la_pk, la, a, ar, qr. rewrite <- Hla, <- Hq, <- Ha. done.
Qed.

(** C9. A call of [get_unanswered_questions] leaves the world as it was, and
    two calls return the same sequence whenever the stores they run on hold
    the same [LearnerAnswer], [Question] and [Answer] rows; so a second call
    with no such row inserted or deleted in between repeats the first
    result. *)
Theorem get_unanswered_questions_idempotent (self quiz : Z) (w1 w2 : world) :
  same_table LearnerAnswer (w_db w1) (w_db w2) →
  same_table Question (w_db w1) (w_db w2) →
  same_table Answer (w_db w1) (w_db w2) →
  ∃ res, Learner_get_unanswered_questions self quiz w1 = (Ok res, w1)
         ∧ Learner_get_unanswered_questions self quiz w2 = (Ok res, w2).
Proof.
  intros Hla Hq Ha. exists (get_unanswered_questions self quiz (w_db w1)).
  unfold Learner_get_unanswered_questions. split; [done|]. do 2 f_equal.
  symmetry. apply get_unanswered_questions_ext.
  - by apply questions_same_table.
  - intros q. split; apply has_answered_same_tables; try done;
      intros pk; symmetry; auto.
Qed.

Lemma fk_delete_ne (f g : string) (r : row) :
  f ≠ g → fk f (delete g r) = fk f r.
Proof. intros Hne. unfold fk. by rewrite lookup_delete_ne. Qed.

Lemma has_answered_differ_in_question (d1 d2 : db) (self quiz q : Z) :
  differ_in_question_only d1 d2 →
  has_answered d1 self quiz q → has_answered d2 self quiz q.
Proof.
  intros [Hother Hla] (la_pk & la & a & ar & qr & Hl & Hst & Ha & Har & Hq & Hqr & Hqz).
  specialize (Hla la_pk). rewrite Hl in Hla. simpl in Hla.
  destruct (d2 !! (LearnerAnswer, la_pk)) as [la2|] eqn:Hl2; [|done].
  simpl in Hla. injection Hla as Hdel.
  exists la_pk, la2, a, ar, qr. split_and!; try done.
  - rewrite <- (fk_delete_ne "student" "question") by done.
    rewrite <- Hdel. by rewrite fk_delete_ne.
  - rewrite <- (fk_delete_ne "answer" "question") by done.
    rewrite <- Hdel. by rewrite fk_delete_ne.
  - by rewrite <- Hother.
  - by rewrite <- Hother.
Qed.

Lemma differ_in_question_only_sym (d1 d2 : db) :
  differ_in_question_only d1 d2 → differ_in_question_only d2 d1.
Proof. intros [H1 H2]. split; intros; symmetry; auto. Qed.

(** C10. The result of [get_unanswered_questions] does not depend on the
    [question] attribute stored on [LearnerAnswer]: two stores that differ
    only in that attribute of their learner answers give the same
    sequence. *)
Theorem get_unanswered_questions_ignores_question (d1 d2 : db) (self quiz : Z) :
  differ_in_question_only d1 d2 →
  get_unanswered_questions self quiz d1 = get_unanswered_questions self quiz d2.
Proof.
  intros Hd. apply get_unanswered_questions_ext.
  - apply questions_same_table. intros pk. by apply Hd.
  - intros q. split; apply has_answered_differ_in_question; [done|].
    by apply differ_in_question_only_sym.
Qed.

(** ** The deletion collector *)

(** Every relation of the schema is declared with [on_delete=CASCADE]. *)
Lemma relations_cascade (m : model) :
  Forall (λ rel, rel_on_delete rel = CASCADE) (relations m).
Proof. destruct m; apply (bool_decide_unpack _); by vm_compute. Qed.

Lemma collect_step_incl (d : db) (S : gset key) : S ⊆ collect_step d S.
Proof. unfold collect_step. set_solver. Qed.

Lemma elem_of_collect_step (d : db) (S : gset key) (k : key) :
  k ∈ collect_step d S ↔
  k ∈ S ∨ ∃ r, d !! k = Some r ∧ cascades_into S k r.
Proof.
  unfold collect_step. rewrite elem_of_union, elem_of_dom.
  unfold is_Some. setoid_rewrite map_lookup_filter_Some. simpl. split.
  - intros [?|(r & Hr & Hc)]; eauto.
  - intros [?|(r & Hr & Hc)]; eauto.
Qed.

Section collector.
  Context (d : db) (root : key).

Lemma collect_iter_bound (n : nat) :
  collect_rounds d n {[root]} ⊆ {[root]} ∪ dom d.
Proof.
  induction n as [|n IH]; simpl; [set_solver|].
  intros k [Hk|(r & Hr & _)]%elem_of_collect_step; [by apply IH|].
  apply elem_of_union_r. by apply elem_of_dom_2 with r.
Qed.

Lemma collect_iter_progress (n : nat) :
  collect_step d (collect_rounds d n {[root]})
    = collect_rounds d n {[root]}
  ∨ (n + 1 ≤ size (collect_rounds d n {[root]}))%nat.
Proof.
  induction n as [|n IH]; cbn [collect_rounds].
  - right. by rewrite size_singleton.
  - set (S := collect_rounds d n {[root]}) in *.
    destruct IH as [Hfix|Hsize]; [left; by rewrite !Hfix|].
    destruct (decide (collect_step d (collect_step d S) = collect_step d S))
      as [|Hne]; [by left|right].
    assert (S ⊂ collect_step d S) as Hlt.
    { split; [apply collect_step_incl|]. intros Hsub. apply Hne.
      assert (collect_step d S = S) as Heq; [|by rewrite !Heq].
      apply set_eq. intros k. split; [apply Hsub|apply collect_step_incl]. }
    apply subset_size in Hlt. lia.
Qed.

(** The collector ends on a set that no further round enlarges. *)
Lemma Collector_collect_fix :
  collect_step d (Collector_collect d root) = Collector_collect d root.
Proof.
  unfold Collector_collect.
  destruct (collect_iter_progress (size d)) as [Hfix|Hsize]; [done|].
  set (S := collect_rounds d (size d) {[root]}) in *.
  assert (S = {[root]} ∪ dom d) as HS.
  { apply set_subseteq_size_eq; [apply collect_iter_bound|].
    rewrite size_union_alt, size_singleton.
    pose proof (subseteq_size (dom d ∖ {[root]}) (dom d)) as Hle.
    rewrite size_dom in Hle. specialize (Hle (subseteq_difference_l _ _ _ (reflexivity _))).
    lia. }
  apply set_eq. intros k. split; [|apply collect_step_incl].
  intros Hk. rewrite HS.
  apply (collect_iter_bound (Datatypes.S (size d))). exact Hk.
Qed.

Lemma Collector_collect_root :
  root ∈ Collector_collect d root.
Proof.
  unfold Collector_collect. generalize (size d). intros n.
  induction n as [|n IH]; simpl; [set_solver|]. by apply collect_step_incl.
Qed.

(** A stored row that points into the collected set is collected. *)
Lemma Collector_collect_closed (child parent : key) :
  references d child parent →
  parent ∈ Collector_collect d root →
  child ∈ Collector_collect d root.
Proof.
  intros (r & rel & Hr & Hrel & Ht) Hp.
  rewrite <- Collector_collect_fix. apply elem_of_collect_step. right.
  exists r. split; [done|]. unfold cascades_into. apply Exists_exists.
  exists rel. split; [done|]. split.
  - pose proof (relations_cascade child.1) as Hall.
    rewrite Forall_forall in Hall. by apply Hall.
  - by rewrite Ht.
Qed.

Lemma lookup_Model_delete (k : key) (r : row) :
  Model_delete root d !! k = Some r ↔
  d !! k = Some r ∧ k ∉ Collector_collect d root.
Proof. unfold Model_delete. by rewrite map_lookup_filter_Some. Qed.

Lemma lookup_Model_delete_None (k : key) :
  k ∈ Collector_collect d root → Model_delete root d !! k = None.
Proof.
  intros Hk. apply eq_None_not_Some. intros [r Hr].
  apply lookup_Model_delete in Hr as [_ Hn]. done.
Qed.

End collector.

(** ** Writes *)

Lemma save_Ok (m : model) (pk : Z) (r : row) (d d' : db) :
  save m pk r d = (Ok (), d') ↔ constraints_ok m pk r d ∧ d' = <[(m, pk) := r]> d.
Proof.
  unfold save. case_decide as Hok.
  - split; [by intros [= <-]|by intros [_ ->]].
  - split; [done|by intros [? _]].
Qed.

Lemma save_refused (m : model) (pk : Z) (r : row) (d : db) :
  ¬ constraints_ok m pk r d → save m pk r d = (Raise IntegrityError, d).
Proof. intros Hn. unfold save. by rewrite decide_False. Qed.

Lemma insert_Ok (m : model) (pk : Z) (r : row) (d d' : db) :
  insert m pk r d = (Ok (), d') ↔
  d !! (m, pk) = None ∧ constraints_ok m pk r d ∧ d' = <[(m, pk) := r]> d.
Proof.
  unfold insert. case_decide as Hpk.
  - split; [done|]. intros (Hnone & _). rewrite Hnone in Hpk. by destruct Hpk.
  - rewrite save_Ok. apply eq_None_not_Some in Hpk. tauto.
Qed.

Lemma insert_refused (m : model) (pk : Z) (r : row) (d : db) :
  ¬ constraints_ok m pk r d → insert m pk r d = (Raise IntegrityError, d).
Proof. intros Hn. unfold insert. case_decide; [done|]. by apply save_refused. Qed.

Lemma column_ext (f : string) (r1 r2 : row) :
  r1 !! f = r2 !! f → column r1 f = column r2 f.
Proof. unfold column. by intros ->. Qed.

Lemma column_inj (f : string) (r1 r2 : row) (v : value) :
  column r1 f = Some v → column r2 f = Some v → r1 !! f = r2 !! f.
Proof.
  unfold column.
  destruct (r1 !! f) as [[]|], (r2 !! f) as [[]|]; congruence.
Qed.

Lemma key_of_ext (fs : list string) (r1 r2 : row) :
  Forall (λ f, r1 !! f = r2 !! f) fs → key_of fs r1 = key_of fs r2.
Proof.
  unfold key_of. induction 1 as [|f fs Hf _ IH]; [done|].
  cbn. by rewrite (column_ext f r1 r2 Hf), IH.
Qed.

Lemma key_of_inj (fs : list string) (r1 r2 : row) :
  is_Some (key_of fs r2) → key_of fs r1 = key_of fs r2 →
  Forall (λ f, r1 !! f = r2 !! f) fs.
Proof.
  unfold key_of. intros [l Hl] Heq. rewrite Hl in Heq.
  apply mapM_Some in Hl, Heq. revert Heq.
  induction Hl as [|f v fs l Hv _ IH]; intros Heq; [by constructor|].
  apply Forall2_cons in Heq as [Hv1 Heq].
  constructor; [by apply column_inj with v|by apply IH].
Qed.

(** A stored row of the same model under another key with the same values in
    a unique column set refuses the write. *)
Lemma unique_conflict_refuses (m : model) (pk pk' : Z) (r r' : row) (d : db)
    (fs : list string) :
  fs ∈ unique_sets m → d !! (m, pk') = Some r' → pk' ≠ pk →
  key_of fs r' = key_of fs r → ¬ constraints_ok m pk r d.
Proof.
  intros Hfs Hr' Hne Hkey [Huniq _]. rewrite Forall_forall in Huniq.
  destruct (Huniq fs Hfs) as [_ Hno]. apply Hno.
  exists (m, pk'), r'. done.
Qed.

(** ** Consistency of the store *)

Lemma consistent_empty : consistent ∅.
Proof. apply map_Forall_empty. Qed.

Lemma fk_valid_mono (d d' : db) (pk : Z) (r : row) (rel : relation) :
  (∀ t, is_Some (d !! t) → is_Some (d' !! t)) →
  fk_valid d pk r rel → fk_valid d' pk r rel.
Proof.
  intros Hmono. unfold fk_valid. destruct (fk_target rel r); [|done].
  intros [? ?]. split; auto.
Qed.

Lemma consistent_write (m : model) (pk : Z) (r : row) (d : db) :
  consistent d → constraints_ok m pk r d → consistent (<[(m, pk) := r]> d).
Proof.
  intros Hd [Huniq Hfk] k r' Hk.
  assert (∀ t, is_Some (d !! t) → is_Some (<[(m, pk) := r]> d !! t)) as Hmono.
  { intros t Ht. destruct (decide ((m, pk) = t)) as [<-|Hne].
    - rewrite lookup_insert_eq. by eexists.
    - by rewrite lookup_insert_ne. }
  apply lookup_insert_Some in Hk as [[<- <-]|[Hne Hk]]; simpl.
  - split.
    + eapply Forall_impl; [exact Huniq|]. intros fs [Hsome Hno]. split; [done|].
      intros (k2 & r2 & Hk2 & Hm & Hpk & Hkey). apply Hno.
      apply lookup_insert_Some in Hk2 as [[<- _]|[_ Hk2]]; [done|].
      by exists k2, r2.
    + eapply Forall_impl; [exact Hfk|]. intros rel. by apply fk_valid_mono.
  - destruct (Hd k r' Hk) as [Huniq' Hfk']. split.
    + rewrite Forall_forall in Huniq'. apply Forall_forall. intros fs Hfs.
      destruct (Huniq' fs Hfs) as [Hsome Hno]. split; [done|].
      intros (k2 & r2 & Hk2 & Hm & Hpk & Hkey).
      apply lookup_insert_Some in Hk2 as [[<- <-]|[_ Hk2]].
      * simpl in *. destruct k as [km kpk]; simpl in *. subst km.
        rewrite Forall_forall in Huniq. destruct (Huniq fs Hfs) as [_ Hno'].
        apply Hno'. exists (m, kpk), r'. simpl. split_and!; done.
      * apply Hno. by exists k2, r2.
    + eapply Forall_impl; [exact Hfk'|]. intros rel. by apply fk_valid_mono.
Qed.

Lemma consistent_references (d : db) (child parent : key) :
  consistent d → references d child parent → is_Some (d !! parent).
Proof.
  intros Hd (r & rel & Hr & Hrel & Ht).
  destruct (Hd child r Hr) as [_ Hfk]. rewrite Forall_forall in Hfk.
  specialize (Hfk rel Hrel). unfold fk_valid in Hfk. rewrite Ht in Hfk.
  by destruct Hfk.
Qed.

Lemma consistent_delete (root : key) (d : db) :
  consistent d → consistent (Model_delete root d).
Proof.
  intros Hd k r Hk. apply lookup_Model_delete in Hk as [Hk Hnot].
  destruct (Hd k r Hk) as [Huniq Hfk]. split.
  - eapply Forall_impl; [exact Huniq|]. intros fs [Hsome Hno]. split; [done|].
    intros (k2 & r2 & [Hk2 _]%lookup_Model_delete & Hrest). apply Hno.
    by exists k2, r2.
  - rewrite Forall_forall in Hfk. apply Forall_forall. intros rel Hrel.
    specialize (Hfk rel Hrel). unfold fk_valid in *.
    destruct (fk_target rel r) as [t|] eqn:Ht; [|done].
    destruct Hfk as [[rt Hrt] Hpk]. split; [|done].
    exists rt. apply lookup_Model_delete. split; [done|].
    intros Hin. apply Hnot.
    apply Collector_collect_closed with t; [|done]. by exists r, rel.
Qed.

Lemma consistent_step (d d' : db) : consistent d → step d d' → consistent d'.
Proof.
  intros Hd Hstep.
  inversion Hstep as [m pk r d0 d1 Hins|m pk r d0 d1 Hsave|k d0]; subst.
  - apply insert_Ok in Hins as (_ & Hok & ->). by apply consistent_write.
  - apply save_Ok in Hsave as (Hok & ->). by apply consistent_write.
  - by apply consistent_delete.
Qed.

Lemma consistent_reachable (d : db) : reachable d → consistent d.
Proof.
  unfold reachable. intros Hr.
  apply (rtc_ind_r (R := step) (λ d, consistent d) ∅ consistent_empty); [|done].
  intros d1 d2 _ Hstep Hd1. by apply consistent_step with d1.
Qed.

(** In a consistent store the values of a unique column set identify the
    row. *)
Lemma consistent_unique (d : db) (m : model) (fs : list string) (pk1 pk2 : Z)
    (r1 r2 : row) :
  consistent d → fs ∈ unique_sets m →
  d !! (m, pk1) = Some r1 → d !! (m, pk2) = Some r2 →
  Forall (λ f, r1 !! f = r2 !! f) fs → pk1 = pk2.
Proof.
  intros Hd Hfs H1 H2 Hsame. destruct (decide (pk1 = pk2)) as [|Hne]; [done|].
  exfalso. apply (unique_conflict_refuses m pk2 pk1 r2 r1 d fs); try done.
  - by apply key_of_ext.
  - apply (Hd (m, pk2) r2 H2).
Qed.

(** ** Uniqueness at the store *)

Lemma unique_sets_TakenQuiz :
  unique_sets TakenQuiz = [["learner"; "quiz"; "attempt_number"]].
Proof. reflexivity. Qed.

Lemma unique_sets_LearnerAnswer :
  unique_sets LearnerAnswer = [["student"; "question"]].
Proof. reflexivity. Qed.

Lemma unique_sets_Profile : unique_sets Profile = [["email"]; ["user"]].
Proof. reflexivity. Qed.

(** A write is refused as soon as a stored row with another key agrees with
    the new row on a unique column set; a forced insert is refused in any
    case. *)
Lemma duplicate_refused (m : model) (fs : list string) (d : db)
    (pk1 pk2 : Z) (r1 r2 : row) :
  fs ∈ unique_sets m → d !! (m, pk1) = Some r1 →
  Forall (λ f, r1 !! f = r2 !! f) fs →
  (pk1 ≠ pk2 → save m pk2 r2 d = (Raise IntegrityError, d))
  ∧ insert m pk2 r2 d = (Raise IntegrityError, d).
Proof.
  intros Hfs Hr1 Hsame.
  assert (pk1 ≠ pk2 → ¬ constraints_ok m pk2 r2 d) as Hno.
  { intros Hne. apply (unique_conflict_refuses m pk2 pk1 r2 r1 d fs); try done.
    by apply key_of_ext. }
  split; [intros Hne; by apply save_refused, Hno|].
  destruct (decide (pk1 = pk2)) as [<-|Hne]; [|by apply insert_refused, Hno].
  unfold insert. rewrite decide_True; [done|]. by exists r1.
Qed.


(** C6. Inserting a second [LearnerAnswer] with the (student, question) of a
    stored one fails with an integrity error and leaves the store as it was;
    hence no store reached by inserts, saves and deletes holds two answers of
    one learner to one question. *)
Theorem LearnerAnswer_unique_together :
  (∀ (d : db) (pk1 pk2 : Z) (la1 la2 : row),
     d !! (LearnerAnswer, pk1) = Some la1 →
     la1 !! "student" = la2 !! "student" →
     la1 !! "question" = la2 !! "question" →
     insert LearnerAnswer pk2 la2 d = (Raise IntegrityError, d))
  ∧ (∀ (d : db) (pk1 pk2 : Z) (la1 la2 : row),
       reachable d →
       d !! (LearnerAnswer, pk1) = Some la1 →
       d !! (LearnerAnswer, pk2) = Some la2 →
       la1 !! "student" = la2 !! "student" →
       la1 !! "question" = la2 !! "question" →
       pk1 = pk2).
Proof.
  split.
  - intros d pk1 pk2 la1 la2 H1 Hs Hq.
    apply (duplicate_refused LearnerAnswer ["student"; "question"] d pk1 pk2 la1 la2);
      [set_solver|done|]. by repeat constructor.
  - intros d pk1 pk2 la1 la2 Hd H1 H2 Hs Hq.
    apply (consistent_unique d LearnerAnswer ["student"; "question"] pk1 pk2 la1 la2);
      [by apply consistent_reachable|set_solver|done|done|].
    by repeat constructor.
Qed.

(** C4 (as amended). The [email] of [Profile] is kept unique by the store
    itself: a save or insert, neither of which runs [clean], of a profile
    whose email is that of another stored profile fails with an integrity
    error and leaves the store as it was, and no reachable store holds two
    profiles with one email. *)
Theorem Profile_email_unique_at_store :
  "email" ∈ unique_fields Profile
  ∧ (∀ (d : db) (pk1 pk2 : Z) (p1 p2 : row),
       d !! (Profile, pk1) = Some p1 → pk1 ≠ pk2 →
       p1 !! "email" = p2 !! "email" →
       save Profile pk2 p2 d = (Raise IntegrityError, d)
       ∧ insert Profile pk2 p2 d = (Raise IntegrityError, d))
  ∧ (∀ (d : db) (pk1 pk2 : Z) (p1 p2 : row),
       reachable d →
       d !! (Profile, pk1) = Some p1 → d !! (Profile, pk2) = Some p2 →
       p1 !! "email" = p2 !! "email" → pk1 = pk2).
Proof.
  split_and!.
  - set_solver.
  - intros d pk1 pk2 p1 p2 H1 Hne He.
    destruct (duplicate_refused Profile ["email"] d pk1 pk2 p1 p2) as [Hs Hi];
      [set_solver|done|by repeat constructor|]. auto.
  - intros d pk1 pk2 p1 p2 Hd H1 H2 He.
    apply (consistent_unique d Profile ["email"] pk1 pk2 p1 p2);
      [by apply consistent_reachable|set_solver|done|done|].
    by repeat constructor.
Qed.

(** ** Cascading deletion *)

(** C8. Every relation of the schema is declared with cascading deletion;
    deleting a row removes it together with every row that references it
    directly or through a chain of relations, no remaining row references a
    removed one, and in every reachable store each relation attribute points
    to a stored row. *)
Theorem cascade_delete :
  (∀ m : model, Forall (λ rel, rel_on_delete rel = CASCADE) (relations m))
  ∧ (∀ (d : db) (root k : key),
       rtc (references d) k root → Model_delete root d !! k = None)
  ∧ (∀ (d : db) (root child parent : key),
       references (Model_delete root d) child parent →
       is_Some (d !! parent) → is_Some (Model_delete root d !! parent))
  ∧ (∀ (d : db) (child parent : key),
       reachable d → references d child parent → is_Some (d !! parent)).
Proof.
  split_and!.
  - apply relations_cascade.
  - intros d root k Hk. apply lookup_Model_delete_None.
    induction Hk as [k|k k' root Href _ IH].
    + apply Collector_collect_root.
    + by apply Collector_collect_closed with k'.
  - intros d root child parent (r & rel & Hr & Hrel & Ht) [rp Hrp].
    apply lookup_Model_delete in Hr as [Hr Hnot].
    exists rp. apply lookup_Model_delete. split; [done|].
    intros Hin. apply Hnot. apply Collector_collect_closed with parent; [|done].
    by exists r, rel.
  - intros d child parent Hd. apply consistent_references.
    by apply consistent_reachable.
Qed.

(** ** [Profile.clean] *)

Lemma exists__true (qs : db) :
  exists_ qs = true ↔ ∃ (k : key) (r : row), qs !! k = Some r.
Proof.
  unfold exists_. rewrite bool_decide_eq_true. split.
  - apply map_choose.
  - intros (k & r & Hk) ->. by rewrite lookup_empty in Hk.
Qed.

Lemma lookup_same_email (self : instance) (d : db) (k : key) (r : row) :
  exclude_pk (inst_pk self)
    (filter_eq "email" (getattr self "email") (objects Profile d)) !! k = Some r ↔
  d !! k = Some r ∧ k.1 = Profile ∧ r !! "email" = Some (getattr self "email")
  ∧ Some k.2 ≠ inst_pk self.
Proof.
  unfold exclude_pk, filter_eq.
  rewrite !map_lookup_filter_Some, lookup_objects. simpl. tauto.
Qed.

(** C3. For a profile with a non-empty email, [clean] raises the validation
    error exactly when a stored profile with another primary key has that
    email, and passes otherwise; in particular the row stored under the
    profile's own key never makes it fail. *)
Theorem Profile_clean_spec (self : instance) (d : db) (e : string) :
  getattr self "email" = VStr e → e ≠ EmptyString →
  (Profile_clean self d = Raise (ValidationError "Email already exists") ↔
     ∃ (pk : Z) (r : row), d !! (Profile, pk) = Some r ∧ Some pk ≠ inst_pk self
                           ∧ r !! "email" = Some (VStr e))
  ∧ (Profile_clean self d = Ok () ↔
     ¬ ∃ (pk : Z) (r : row), d !! (Profile, pk) = Some r ∧ Some pk ≠ inst_pk self
                             ∧ r !! "email" = Some (VStr e))
  ∧ (∀ pk : Z, inst_pk self = Some pk →
       (∀ (pk' : Z) (r : row), d !! (Profile, pk') = Some r →
          r !! "email" = Some (VStr e) → pk' = pk) →
       Profile_clean self d = Ok ()).
Proof.
  intros He Hne.
  assert (exists_ (exclude_pk (inst_pk self)
            (filter_eq "email" (getattr self "email") (objects Profile d))) = true ↔
          ∃ (pk : Z) (r : row), d !! (Profile, pk) = Some r ∧ Some pk ≠ inst_pk self
                                ∧ r !! "email" = Some (VStr e)) as Hex.
  { rewrite exists__true. setoid_rewrite lookup_same_email. rewrite He. split.
    - intros ([m pk] & r & Hr & Hm & Hem & Hpk). simpl in Hm, Hpk. subst m. eauto.
    - intros (pk & r & Hr & Hpk & Hem). exists (Profile, pk), r. done. }
  assert (truthy (getattr self "email") = true) as Ht.
  { rewrite He. simpl. by apply bool_decide_eq_true. }
  unfold Profile_clean. rewrite Ht. simpl.
  destruct (exists_ _) eqn:Hq.
  - assert (∃ (pk : Z) (r : row), d !! (Profile, pk) = Some r
              ∧ Some pk ≠ inst_pk self ∧ r !! "email" = Some (VStr e)) as Hyes
      by by apply Hex.
    split_and!; [done|split; [done|intros Hn; by destruct Hn]|].
    intros pk Hpk Hown. destruct Hyes as (pk' & r & Hr & Hd & Hem).
    rewrite (Hown pk' r Hr Hem), Hpk in Hd. done.
  - assert (¬ ∃ (pk : Z) (r : row), d !! (Profile, pk) = Some r
              ∧ Some pk ≠ inst_pk self ∧ r !! "email" = Some (VStr e)) as Hno.
    { intros Hyes. apply Hex in Hyes. done. }
    split_and!; [split; [done|intros Hyes; by destruct Hno]|done|done].
Qed.

(** ** [Notes.delete] *)

Lemma getattr_setattr_ne (self : instance) (f g : string) (v : value) :
  f ≠ g → getattr (setattr self f v) g = getattr self g.
Proof. intros Hne. unfold getattr, setattr. simpl. by rewrite lookup_insert_ne. Qed.

(** Discarding one attachment without saving: the blob goes, the trace
    records it, the store is untouched. *)
Lemma FieldFile_delete_no_save (f : string) (self : instance) (w : world) :
  ∃ self',
    (if truthy (getattr self f) then FieldFile_delete f false self else mret self) w
    = (Ok self',
       World (w_db w) (w_storage w ∖ list_to_set (blob self f))
             (w_log w ++ (StorageDelete <$> blob self f)))
    ∧ inst_model self' = inst_model self ∧ inst_pk self' = inst_pk self
    ∧ ∀ g, f ≠ g → getattr self' g = getattr self g.
Proof.
  unfold FieldFile_delete, blob.
  destruct (getattr self f) as [|z|name|b|q] eqn:Hf; simpl.
  - exists self. destruct w. simpl.
    rewrite app_nil_r, difference_empty_L. done.
  - exists self. destruct w, (bool_decide (z ≠ 0)); simpl;
      rewrite app_nil_r, difference_empty_L; done.
  - destruct (decide (name = EmptyString)) as [->|Hne].
    + exists self. destruct w. simpl. rewrite app_nil_r, difference_empty_L. done.
    + rewrite bool_decide_eq_true_2 by done. simpl.
      exists (setattr self f VNull). split_and!; try done.
      * unfold mbind, M_bind, storage_delete, mret, M_ret. simpl.
        by rewrite union_empty_r_L.
      * intros g Hg. by apply getattr_setattr_ne.
  - exists self. destruct w, b; simpl;
      rewrite app_nil_r, difference_empty_L; done.
  - exists self. destruct w, (negb (Qeq_bool q 0)); simpl;
      rewrite app_nil_r, difference_empty_L; done.
Qed.

(** C2. Deleting a stored [Notes] record removes the file blob if the file
    attribute is set, then the cover blob if the cover attribute is set, then
    the row; the record is not saved in between.  Afterwards no blob named by
    the record is in storage and the row is gone. *)
Theorem Notes_delete_spec (self : instance) (w : world) (pk : Z) :
  inst_model self = Notes → inst_pk self = Some pk →
  ∃ (self' : instance) (w' : world),
    Notes_delete self w = (Ok self', w')
    ∧ w_log w' = (w_log w ++ (StorageDelete <$> blob self "file")
                  ++ (StorageDelete <$> blob self "cover")
                  ++ [RowsDelete (Collector_collect (w_db w) (Notes, pk))])%list
    ∧ w_db w' = Model_delete (Notes, pk) (w_db w)
    ∧ w_db w' !! (Notes, pk) = None
    ∧ (∀ name : string, name ∈ w_storage w' ↔
         name ∈ w_storage w ∧ name ∉ (blob self "file" ++ blob self "cover")%list)
    ∧ (∀ name : string, name ∈ (blob self "file" ++ blob self "cover")%list →
         name ∉ w_storage w').
Proof.
  intros Hm Hpk. unfold Notes_delete.
  destruct (FieldFile_delete_no_save "file" self w) as (s1 & H1 & Hm1 & Hpk1 & Hg1).
  set (w1 := World (w_db w) (w_storage w ∖ list_to_set (blob self "file"))
                   (w_log w ++ (StorageDelete <$> blob self "file"))) in *.
  destruct (FieldFile_delete_no_save "cover" s1 w1) as (s2 & H2 & Hm2 & Hpk2 & Hg2).
  assert (blob s1 "cover" = blob self "cover") as Hb.
  { unfold blob. by rewrite Hg1. }
  rewrite Hb in H2.
  eexists _, _. split.
  { unfold mbind at 1, M_bind at 1. rewrite H1.
    unfold mbind at 1, M_bind at 1. rewrite H2.
    unfold Model_delete_instance. rewrite Hpk2, Hpk1, Hpk, Hm2, Hm1, Hm. done. }
  simpl. split_and!.
  - by rewrite <- !app_assoc.
  - done.
  - apply lookup_Model_delete_None, Collector_collect_root.
  - intros name. rewrite !elem_of_difference, !elem_of_list_to_set, elem_of_app.
    tauto.
  - intros name. rewrite !elem_of_difference, !elem_of_list_to_set, elem_of_app.
    tauto.
Qed.

(** ** Field validation *)

Lemma Qlt_bool_true (a b : Q) : Qlt_bool a b = true ↔ (a < b)%Q.
Proof.
  unfold Qlt_bool. rewrite negb_true_iff, <- not_true_iff_false, Qle_bool_iff.
  split; [apply Qnot_le_lt|apply Qlt_not_le].
Qed.















(** ** The small store *)

Lemma reachable_insert (d : db) (m : model) (pk : Z) (r : row) :
  reachable d → d !! (m, pk) = None → constraints_ok m pk r d →
  reachable (<[(m, pk) := r]> d).
Proof.
  intros Hd Hnone Hok. apply rtc_r with d; [done|].
  apply (step_insert m pk r). by apply insert_Ok.
Qed.

Local Ltac by_compute := apply (bool_decide_unpack _); by vm_compute.

Local Ltac reach_insert :=
  apply reachable_insert;
  [ | by vm_compute | apply (bool_decide_unpack _); by vm_compute ].

Lemma sample_db_reachable : reachable sample_db.
Proof. unfold sample_db. repeat reach_insert. apply rtc_refl. Qed.

Example sample_unanswered :
  (get_unanswered_questions 2 1 sample_db).*1
  = [(Question, 4); (Question, 3); (Question, 1)].
Proof. by vm_compute. Qed.

Example sample_delete_quiz :
  (map_to_list (Model_delete (Quiz, 1) sample_db)).*1
  ≡ₚ [(User, 1); (User, 2); (Learner, 2); (Course, 1); (Profile, 1); (Notes, 4)].
Proof. apply (bool_decide_unpack _). by vm_compute. Qed.

(** The stored rows of a concrete store, enumerated by computation. *)
Lemma stored_rows (P : key → row → Prop) `{∀ k r, Decision (P k r)} (d : db) :
  bool_decide (map_Forall P d) = true →
  ∀ (k : key) (r : row), d !! k = Some r → P k r.
Proof. intros Hb k r Hk. apply bool_decide_eq_true in Hb. by apply Hb. Qed.

Lemma Notes_delete_spec_witness :
  ∃ (self' : instance) (w' : world),
    Notes_delete sample_notes sample_world = (Ok self', w')
    ∧ w_db w' !! (Notes, 4) = None
    ∧ "notes/files/week1.pdf" ∉ w_storage w'.
Proof.
  destruct (Notes_delete_spec sample_notes sample_world 4 eq_refl eq_refl)
    as (s & w' & Hrun & _ & _ & Hrow & _ & Hblob).
  exists s, w'. split_and!; [done|done|]. apply Hblob. by_compute.
Defined.

Lemma Profile_clean_spec_witness :
  Profile_clean (Instance Profile (Some 1) (profile_row 1 "ann@example.org")) sample_db
  = Ok ()
  ∧ Profile_clean (Instance Profile None (profile_row 3 "ann@example.org")) sample_db
    = Raise (ValidationError "Email already exists").
Proof.
  split.
  - destruct (Profile_clean_spec
                (Instance Profile (Some 1) (profile_row 1 "ann@example.org"))
                sample_db "ann@example.org" eq_refl ltac:(done)) as (_ & _ & Hown).
    apply (Hown 1 eq_refl). intros pk' r Hr He.
    assert (bool_decide (map_Forall (λ (k : key) (r : row),
              k.1 = Profile → r !! "email" = Some (VStr "ann@example.org") → k.2 = 1)
              sample_db) = true) as Hall by by vm_compute.
    apply (stored_rows _ sample_db Hall (Profile, pk') r Hr eq_refl He).
  - destruct (Profile_clean_spec
                (Instance Profile None (profile_row 3 "ann@example.org"))
                sample_db "ann@example.org" eq_refl ltac:(done)) as (Hraise & _ & _).
    apply Hraise.
    exists 1, (profile_row 1 "ann@example.org"). split_and!; [reflexivity|done|reflexivity].
Defined.

(** C4, counterexample to "no storage-level unique constraint on email":
    [email] is declared unique, and a save, which runs no [clean], of a
    second profile with a stored email is refused by the store, whereas the
    same profile with a new email is stored; no save at all stores a profile
    under an email that another stored profile has. *)
Lemma Profile_email_duplicate_refused :
  "email" ∈ unique_fields Profile
  ∧ save Profile 2 (profile_row 2 "ann@example.org") sample_db
    = (Raise IntegrityError, sample_db)
  ∧ save Profile 2 (profile_row 2 "bob@example.org") sample_db
    = (Ok (), <[(Profile, 2) := profile_row 2 "bob@example.org"]> sample_db)
  ∧ ¬ (∃ (d d' : db) (pk1 pk2 : Z) (p1 p2 : row),
         d !! (Profile, pk1) = Some p1 ∧ pk1 ≠ pk2
         ∧ p1 !! "email" = p2 !! "email"
         ∧ save Profile pk2 p2 d = (Ok (), d')).
Proof.
  split_and!.
  - by_compute.
  - apply save_refused. by_compute.
  - apply save_Ok. split; [by_compute|reflexivity].
  - intros (d & d' & pk1 & pk2 & p1 & p2 & Hp1 & Hne & He & Hsave).
    destruct (duplicate_refused Profile ["email"] d pk1 pk2 p1 p2) as [Hrefused _];
      [by_compute|done|by repeat constructor|].
    rewrite (Hrefused Hne) in Hsave. discriminate Hsave.
Qed.

Lemma Profile_email_unique_at_store_witness :
  save Profile 2 (profile_row 2 "ann@example.org") sample_db
  = (Raise IntegrityError, sample_db)
  ∧ insert Profile 2 (profile_row 2 "ann@example.org") sample_db
    = (Raise IntegrityError, sample_db).
Proof.
  apply (proj1 (proj2 Profile_email_unique_at_store) sample_db 1 2
           (profile_row 1 "ann@example.org") (profile_row 2 "ann@example.org"));
    [reflexivity|done|reflexivity].
Defined.


Lemma LearnerAnswer_unique_together_witness :
  insert LearnerAnswer 8 (learner_answer_row 2 10 2) sample_db
  = (Raise IntegrityError, sample_db)
  ∧ (∀ pk : Z, sample_db !! (LearnerAnswer, pk) = Some (learner_answer_row 2 20 2) →
       pk = 7).
Proof.
  split.
  - apply (proj1 LearnerAnswer_unique_together sample_db 7 8
             (learner_answer_row 2 20 2) (learner_answer_row 2 10 2)); reflexivity.
  - intros pk Hpk.
    apply (proj2 LearnerAnswer_unique_together sample_db pk 7
             (learner_answer_row 2 20 2) (learner_answer_row 2 20 2));
      [apply sample_db_reachable|done|reflexivity|done|done].
Defined.

Lemma cascade_delete_witness :
  Model_delete (Quiz, 1) sample_db !! (LearnerAnswer, 7) = None.
Proof.
  apply (proj1 (proj2 cascade_delete) sample_db (Quiz, 1) (LearnerAnswer, 7)).
  apply rtc_l with (Answer, 20).
  { exists (learner_answer_row 2 20 2), (ForeignKey "answer" Answer CASCADE).
    split_and!; [reflexivity|by_compute|reflexivity]. }
  apply rtc_l with (Question, 2).
  { exists {[ "question" := VInt 2 ]}, (ForeignKey "question" Question CASCADE).
    split_and!; [reflexivity|by_compute|reflexivity]. }
  apply rtc_once.
  exists (question_row 1 2), (ForeignKey "quiz" Quiz CASCADE).
  split_and!; [reflexivity|by_compute|reflexivity].
Defined.

Lemma get_unanswered_questions_idempotent_witness :
  ∃ res,
    Learner_get_unanswered_questions 2 1 sample_world = (Ok res, sample_world)
    ∧ Learner_get_unanswered_questions 2 1
        (World (<[(Course, 2) := {[ "name" := VStr "Design" ]}]> sample_db) ∅ [])
      = (Ok res, World (<[(Course, 2) := {[ "name" := VStr "Design" ]}]> sample_db) ∅ []).
Proof.
  apply (get_unanswered_questions_idempotent 2 1 sample_world
           (World (<[(Course, 2) := {[ "name" := VStr "Design" ]}]> sample_db) ∅ []));
    intros pk; simpl; by rewrite lookup_insert_ne.
Defined.

Lemma get_unanswered_questions_ignores_question_witness :
  get_unanswered_questions 2 1 sample_db
  = get_unanswered_questions 2 1
      (<[(LearnerAnswer, 7) := learner_answer_row 2 20 1]> sample_db).
Proof.
  apply get_unanswered_questions_ignores_question. split.
  - intros [m pk] Hm. rewrite lookup_insert_ne; [done|]. intros [= <- _]. done.
  - intros pk. destruct (decide (pk = 7)) as [->|Hne].
    + rewrite lookup_insert_eq. reflexivity.
    + rewrite lookup_insert_ne; [done|]. intros [= ?]. done.
Defined.





(* ================================================================== *)
(** * Further properties of the store *)

Lemma fk_target_model (rel : relation) (r : row) (t : key) :
  fk_target rel r = Some t → t.1 = rel_to rel.
Proof.
  unfold fk_target. destruct (fk (rel_field rel) r); simpl; [|done].
  by intros [= <-].
Qed.

Lemma references_points_to (d : db) (child parent : key) :
  references d child parent → points_to child.1 parent.1.
Proof.
  intros (r & rel & _ & Hrel & Ht). apply Exists_exists. exists rel.
  split; [done|]. symmetry. by apply fk_target_model with r.
Qed.

Lemma collect_rounds_depends (d : db) (root k : key) (n : nat) :
  k ∈ collect_rounds d n {[root]} → rtc (references d) k root.
Proof.
  revert k. induction n as [|n IH]; intros k; cbn [collect_rounds].
  - intros ->%elem_of_singleton. apply rtc_refl.
  - intros [Hk|(r & Hr & Hc)]%elem_of_collect_step; [by apply IH|].
    apply Exists_exists in Hc as (rel & Hrel & _ & Ht).
    destruct (fk_target rel r) as [t|] eqn:Htarget; [|done].
    apply rtc_l with t; [|by apply IH]. by exists r, rel.
Qed.

(** The collector gathers the root and the rows that depend on it, and
    nothing else. *)
Lemma elem_of_Collector_collect (d : db) (root k : key) :
  k ∈ Collector_collect d root ↔ rtc (references d) k root.
Proof.
  split; [apply collect_rounds_depends|].
  induction 1 as [k|k k' root Href _ IH].
  - apply Collector_collect_root.
  - by apply Collector_collect_closed with k'.
Qed.

(** X1. Deletion never goes beyond the dependants: a stored row survives the
    deletion of [root] exactly when no chain of relations leads from it to
    [root], and it survives unchanged. *)
Theorem Model_delete_exact (d : db) (root k : key) (r : row) :
  Model_delete root d !! k = Some r ↔
  d !! k = Some r ∧ ¬ rtc (references d) k root.
Proof. by rewrite lookup_Model_delete, elem_of_Collector_collect. Qed.

Lemma dependants_fix (m : model) :
  dependants_step (dependants m) = dependants m.
Proof. destruct m; by vm_compute. Qed.

Lemma elem_of_all_models (m : model) : m ∈ all_models.
Proof. exact (elem_of_enum m). Qed.

Lemma dependants_closed (m m' c : model) :
  m' ∈ dependants m → points_to c m' → c ∈ dependants m.
Proof.
  intros Hm' Hc. rewrite <- dependants_fix. unfold dependants_step.
  apply list_elem_of_filter. split; [|apply elem_of_all_models].
  right. apply Exists_exists. exists m'. split; [apply elem_of_all_models|done].
Qed.

Lemma depends_dependants (d : db) (root k : key) :
  rtc (references d) k root → k.1 ∈ dependants root.1.
Proof.
  induction 1 as [k|k k' root Href _ IH].
  - destruct k as [[] pk]; by_compute.
  - apply dependants_closed with k'.1; [done|]. by apply references_points_to with d.
Qed.

(** X2. What a deletion can reach is fixed by the declarations: a row removed
    with [root] belongs to a model that hangs on the model of [root].
    Deleting a quiz removes only quizzes, questions, answers, taken quizzes
    and learner answers; deleting a course removes no user, profile,
    announcement, learner or instructor; deleting an answer removes only
    answers and learner answers. *)
Theorem Model_delete_scope :
  (∀ (d : db) (root k : key),
     is_Some (d !! k) → Model_delete root d !! k = None →
     k.1 ∈ dependants root.1)
  ∧ (∀ m : model, m ∈ dependants Quiz ↔
       m ∈ [Quiz; Question; Answer; TakenQuiz; LearnerAnswer])
  ∧ (∀ m : model, m ∈ dependants Course ↔
       m ∈ [Course; Tutorial; Notes; Quiz; Question; Answer; TakenQuiz;
            LearnerAnswer; Learner_interests; Instructor_expertise])
  ∧ (∀ m : model, m ∈ dependants Answer ↔ m ∈ [Answer; LearnerAnswer]).
Proof.
  split_and!.
  - intros d root k [r Hr] Hgone. apply depends_dependants with d.
    destruct (decide (k ∈ Collector_collect d root)) as [Hin|Hout].
    + by apply elem_of_Collector_collect.
    + assert (Model_delete root d !! k = Some r) as Hstay
        by by apply lookup_Model_delete.
      by rewrite Hgone in Hstay.
  - intros []; by_compute.
  - intros []; by_compute.
  - intros []; by_compute.
Qed.

(** A row of a model that no relation points to takes nothing with it. *)
Lemma Model_delete_leaf (d : db) (root : key) :
  (∀ c : model, ¬ points_to c root.1) → Model_delete root d = delete root d.
Proof.
  intros Hleaf. apply map_eq. intros k. apply option_eq. intros r.
  rewrite lookup_Model_delete, elem_of_Collector_collect, lookup_delete_Some. split.
  - intros [Hr Hno]. split; [|done]. intros <-. apply Hno, rtc_refl.
  - intros [Hne Hr]. split; [done|]. intros Hrtc.
    apply rtc_inv_r in Hrtc as [->|(t & _ & Href)]; [done|].
    by apply (Hleaf t.1), references_points_to with d.
Qed.

(** X3. [Notes.delete] removes the row of the note and no other row: no
    model declares a relation to [Notes], so nothing cascades. *)
Theorem Notes_delete_only_its_row (self : instance) (w : world) (pk : Z) :
  inst_model self = Notes → inst_pk self = Some pk →
  ∃ (self' : instance) (w' : world),
    Notes_delete self w = (Ok self', w')
    ∧ w_db w' = delete (Notes, pk) (w_db w)
    ∧ (∀ k : key, k ≠ (Notes, pk) → w_db w' !! k = w_db w !! k)
    ∧ inst_pk self' = None.
Proof.
  intros Hm Hpk. unfold Notes_delete.
  destruct (FieldFile_delete_no_save "file" self w) as (s1 & H1 & Hm1 & Hpk1 & _).
  set (w1 := World (w_db w) (w_storage w ∖ list_to_set (blob self "file"))
                   (w_log w ++ (StorageDelete <$> blob self "file"))) in *.
  destruct (FieldFile_delete_no_save "cover" s1 w1) as (s2 & H2 & Hm2 & Hpk2 & _).
  assert (Model_delete (Notes, pk) (w_db w) = delete (Notes, pk) (w_db w)) as Hleaf.
  { apply Model_delete_leaf. intros []; by_compute. }
  eexists _, _. split.
  { unfold mbind at 1, M_bind at 1. rewrite H1.
    unfold mbind at 1, M_bind at 1. rewrite H2.
    unfold Model_delete_instance. rewrite Hpk2, Hpk1, Hpk, Hm2, Hm1, Hm. done. }
  simpl. split_and!; [done| |done].
  intros k Hne. rewrite Hleaf. by rewrite lookup_delete_ne.
Qed.

Lemma Notes_delete_only_its_row_witness :
  ∃ (self' : instance) (w' : world),
    Notes_delete sample_notes sample_world = (Ok self', w')
    ∧ w_db w' !! (Course, 1) = sample_db !! (Course, 1).
Proof.
  destruct (Notes_delete_only_its_row sample_notes sample_world 4 eq_refl eq_refl)
    as (s & w' & Hrun & _ & Hother & _).
  exists s, w'. split; [done|]. by apply Hother.
Defined.

(** X4. Deleting a key that is not stored changes nothing in a reachable
    store. *)
Theorem Model_delete_missing (d : db) (k : key) :
  reachable d → d !! k = None → Model_delete k d = d.
Proof.
  intros Hd Hk. unfold Model_delete. apply map_filter_id. intros k' r Hr Hin.
  simpl in Hin. apply elem_of_Collector_collect in Hin.
  apply rtc_inv_r in Hin as [->|(t & _ & Href)].
  - by rewrite Hk in Hr.
  - apply consistent_references in Href as [rk Hrk]; [|by apply consistent_reachable].
    by rewrite Hk in Hrk.
Qed.

Lemma Model_delete_missing_witness : Model_delete (Quiz, 99) sample_db = sample_db.
Proof. apply Model_delete_missing; [apply sample_db_reachable|reflexivity]. Defined.

(** X6. A write is refused with an integrity error, and the store left as it
    was, when one of the relation attributes of the row is missing or null,
    or holds the key of a parent that is not stored. *)
Theorem dangling_relation_refused (d : db) (m : model) (pk : Z) (r : row)
    (rel : relation) :
  rel ∈ relations m →
  r !! rel_field rel = None ∨ r !! rel_field rel = Some VNull
  ∨ (∃ z : Z, r !! rel_field rel = Some (VInt z) ∧ d !! (rel_to rel, z) = None) →
  save m pk r d = (Raise IntegrityError, d)
  ∧ insert m pk r d = (Raise IntegrityError, d).
Proof.
  intros Hrel Hmissing.
  assert (¬ constraints_ok m pk r d) as Hno.
  { intros [_ Hfk]. rewrite Forall_forall in Hfk. specialize (Hfk rel Hrel).
    unfold fk_valid, fk_target, fk in Hfk.
    destruct Hmissing as [Hr|[Hr|(z & Hr & Hz)]]; rewrite Hr in Hfk; simpl in Hfk;
      [done|done|].
    destruct Hfk as [[rp Hrp] _]. by rewrite Hz in Hrp. }
  split; [by apply save_refused|by apply insert_refused].
Qed.

Lemma dangling_relation_refused_witness :
  save Question 9 (question_row 5 1) sample_db = (Raise IntegrityError, sample_db)
  ∧ insert Question 9 (question_row 5 1) sample_db = (Raise IntegrityError, sample_db).
Proof.
  apply (dangling_relation_refused sample_db Question 9 (question_row 5 1)
           (ForeignKey "quiz" Quiz CASCADE)); [by_compute|].
  right. right. exists 5. split; reflexivity.
Defined.

(** X7. One-to-one relations: a second profile, instructor or learner for a
    user that has one is refused with an integrity error, and no reachable
    store holds two of them for one user. *)
Theorem one_to_one_user (m : model) :
  m ∈ [Profile; Instructor; Learner] →
  (∀ (d : db) (pk1 pk2 : Z) (r1 r2 : row),
     d !! (m, pk1) = Some r1 → r1 !! "user" = r2 !! "user" →
     insert m pk2 r2 d = (Raise IntegrityError, d)
     ∧ (pk1 ≠ pk2 → save m pk2 r2 d = (Raise IntegrityError, d)))
  ∧ (∀ (d : db) (pk1 pk2 : Z) (r1 r2 : row),
       reachable d → d !! (m, pk1) = Some r1 → d !! (m, pk2) = Some r2 →
       r1 !! "user" = r2 !! "user" → pk1 = pk2).
Proof.
  intros Hm. assert (["user"] ∈ unique_sets m) as Hset.
  { revert Hm. destruct m; by_compute. }
  split.
  - intros d pk1 pk2 r1 r2 H1 Hu.
    destruct (duplicate_refused m ["user"] d pk1 pk2 r1 r2) as [Hs Hi];
      [done|done|by repeat constructor|]. done.
  - intros d pk1 pk2 r1 r2 Hd H1 H2 Hu.
    apply (consistent_unique d m ["user"] pk1 pk2 r1 r2);
      [by apply consistent_reachable|done|done|done|by repeat constructor].
Qed.

Lemma one_to_one_user_witness :
  insert Profile 2 (profile_row 1 "carl@example.org") sample_db
  = (Raise IntegrityError, sample_db).
Proof.
  assert (Profile ∈ [Profile; Instructor; Learner]) as Hm by by_compute.
  destruct (proj1 (one_to_one_user Profile Hm) sample_db 1 2
              (profile_row 1 "ann@example.org") (profile_row 1 "carl@example.org")
              eq_refl eq_refl) as [Hinsert _].
  exact Hinsert.
Defined.

(** X8. [Learner.user] is the primary key: in a reachable store the row of a
    learner names the user whose key it is stored under, and that user is
    stored. *)
Theorem Learner_pk_is_user (d : db) (pk : Z) (r : row) :
  reachable d → d !! (Learner, pk) = Some r →
  fk "user" r = Some pk ∧ is_Some (d !! (User, pk)).
Proof.
  intros Hd Hr. destruct (consistent_reachable d Hd (Learner, pk) r Hr) as [_ Hfk].
  apply Forall_cons in Hfk as [Huser _]. unfold fk_valid, fk_target in Huser.
  simpl in Huser. destruct (fk "user" r) as [u|]; simpl in Huser; [|done].
  destruct Huser as [Hstored Hpk]. specialize (Hpk eq_refl). simpl in Hpk.
  by subst u.
Qed.

Lemma Learner_pk_is_user_witness :
  fk "user" ({[ "user" := VInt 2 ]} : row) = Some 2 ∧ is_Some (sample_db !! (User, 2)).
Proof.
  apply (Learner_pk_is_user sample_db 2); [apply sample_db_reachable|reflexivity].
Defined.

(** X9. [Course.name] is unique: a course whose name a stored course has is
    refused with an integrity error, and no reachable store holds two
    courses of one name. *)
Theorem Course_name_unique :
  (∀ (d : db) (pk1 pk2 : Z) (c1 c2 : row),
     d !! (Course, pk1) = Some c1 → c1 !! "name" = c2 !! "name" →
     insert Course pk2 c2 d = (Raise IntegrityError, d)
     ∧ (pk1 ≠ pk2 → save Course pk2 c2 d = (Raise IntegrityError, d)))
  ∧ (∀ (d : db) (pk1 pk2 : Z) (c1 c2 : row),
       reachable d → d !! (Course, pk1) = Some c1 → d !! (Course, pk2) = Some c2 →
       c1 !! "name" = c2 !! "name" → pk1 = pk2).
Proof.
  split.
  - intros d pk1 pk2 c1 c2 H1 Hn.
    destruct (duplicate_refused Course ["name"] d pk1 pk2 c1 c2) as [Hs Hi];
      [by_compute|done|by repeat constructor|]. done.
  - intros d pk1 pk2 c1 c2 Hd H1 H2 Hn.
    apply (consistent_unique d Course ["name"] pk1 pk2 c1 c2);
      [by apply consistent_reachable|by_compute|done|done|by repeat constructor].
Qed.

Lemma Course_name_unique_witness :
  insert Course 2 (course_row "Python Basics" "#ff0000") sample_db
  = (Raise IntegrityError, sample_db).
Proof.
  destruct (proj1 Course_name_unique sample_db 1 2
              {[ "name" := VStr "Python Basics" ]}
              (course_row "Python Basics" "#ff0000")
              eq_refl eq_refl) as [Hinsert _].
  exact Hinsert.
Defined.

Lemma Model_delete_scope_witness :
  (User ∉ dependants Quiz) ∧ (LearnerAnswer ∈ dependants Quiz).
Proof.
  split; [by_compute|].
  assert (is_Some (sample_db !! (LearnerAnswer, 7))) as Hstored by by_compute.
  assert (Model_delete (Quiz, 1) sample_db !! (LearnerAnswer, 7) = None) as Hgone
    by by_compute.
  exact (proj1 Model_delete_scope sample_db (Quiz, 1) (LearnerAnswer, 7) Hstored Hgone).
Defined.

(* ================================================================== *)
(** * Further properties of [get_unanswered_questions] *)

Lemma elem_of_get_unanswered_questions (d : db) (self quiz : Z) (k : key) (r : row) :
  (k, r) ∈ get_unanswered_questions self quiz d ↔
  d !! k = Some r ∧ k.1 = Question ∧ fk "quiz" r = Some quiz
  ∧ ¬ has_answered d self quiz k.2.
Proof.
  unfold get_unanswered_questions, order_by_order_id, exclude_pk_in.
  rewrite merge_sort_Permutation, elem_of_map_to_list.
  rewrite map_lookup_filter_Some, lookup_questions. simpl.
  rewrite elem_of_answered_questions. tauto.
Qed.

Lemma get_unanswered_questions_sorted (d : db) (self quiz : Z) :
  StronglySorted order_id_le (get_unanswered_questions self quiz d).
Proof.
  unfold get_unanswered_questions, order_by_order_id.
  apply StronglySorted_merge_sort; apply _.
Qed.

Lemma get_unanswered_questions_NoDup (d : db) (self quiz : Z) :
  NoDup (get_unanswered_questions self quiz d).
Proof.
  unfold get_unanswered_questions, order_by_order_id.
  rewrite merge_sort_Permutation. apply NoDup_map_to_list.
Qed.

(** Two entries of a result that tie on (order, id) are the same entry. *)
Lemma unanswered_tie (d : db) (self quiz : Z) (x y : key * row) :
  x ∈ get_unanswered_questions self quiz d →
  y ∈ get_unanswered_questions self quiz d →
  order_id_le x y → order_id_le y x → x = y.
Proof.
  destruct x as [[mx qx] rx], y as [[my qy] ry].
  intros (Hx & Hmx & _)%elem_of_get_unanswered_questions
         (Hy & Hmy & _)%elem_of_get_unanswered_questions Hxy Hyx.
  simpl in Hmx, Hmy. subst mx my. unfold order_id_le in Hxy, Hyx. simpl in Hxy, Hyx.
  assert (qx = qy) as -> by lia. rewrite Hx in Hy. by injection Hy as ->.
Qed.

Lemma StronglySorted_strengthen {A} (R R' : A → A → Prop) (l : list A) :
  (∀ x y, x ∈ l → y ∈ l → x ≠ y → R x y → R' x y) →
  NoDup l → StronglySorted R l → StronglySorted R' l.
Proof.
  intros HR Hnd Hs. induction Hs as [|x l Hs IH Hx]; [constructor|].
  apply NoDup_cons in Hnd as [Hnx Hnd]. constructor.
  - apply IH; [|done]. intros y z Hy Hz. apply HR; by right.
  - rewrite Forall_forall in Hx. apply Forall_forall. intros y Hy.
    apply HR; [by left|by right| |by apply Hx]. intros ->. done.
Qed.

Lemma StronglySorted_filter {A} (R : A → A → Prop) (P : A → Prop)
    `{∀ x, Decision (P x)} (l : list A) :
  StronglySorted R l → StronglySorted R (filter P l).
Proof.
  induction 1 as [|x l Hs IH Hx]; [constructor|].
  rewrite filter_cons. case_decide; [|done]. constructor; [done|].
  rewrite Forall_forall in Hx. apply Forall_forall.
  intros y [_ Hy]%list_elem_of_filter. by apply Hx.
Qed.

(** A sorted duplicate-free list with the entries of the result is the
    result. *)
Lemma get_unanswered_questions_canonical (d : db) (self quiz : Z) (l : list (key * row)) :
  StronglySorted order_id_le l → NoDup l →
  (∀ x, x ∈ l ↔ x ∈ get_unanswered_questions self quiz d) →
  l = get_unanswered_questions self quiz d.
Proof.
  intros Hs Hnd Hin. apply (StronglySorted_unique_strong order_id_le).
  - intros x y Hx Hy. apply (unanswered_tie d self quiz); [by apply Hin|done].
  - done.
  - apply get_unanswered_questions_sorted.
  - apply NoDup_Permutation; [done|apply get_unanswered_questions_NoDup|done].
Qed.

(** X10. The order of the result leaves nothing open: its entries increase
    strictly in (order, id), and every sorted arrangement of the same
    entries is the result itself. *)
Theorem get_unanswered_questions_strict (d : db) (self quiz : Z) :
  StronglySorted order_id_lt (get_unanswered_questions self quiz d)
  ∧ (∀ l : list (key * row),
       l ≡ₚ get_unanswered_questions self quiz d →
       StronglySorted order_id_le l →
       l = get_unanswered_questions self quiz d).
Proof.
  split.
  - apply (StronglySorted_strengthen order_id_le);
      [|apply get_unanswered_questions_NoDup|apply get_unanswered_questions_sorted].
    intros x y Hx Hy Hne Hle.
    destruct (decide (order_id_le y x)) as [Hge|Hgt].
    + destruct Hne. by apply (unanswered_tie d self quiz).
    + unfold order_id_le, order_id_lt in *. lia.
  - intros l Hperm Hs. apply get_unanswered_questions_canonical; [done| |].
    + rewrite Hperm. apply get_unanswered_questions_NoDup.
    + intros x. by rewrite Hperm.
Qed.

Lemma get_unanswered_questions_strict_witness :
  reverse (reverse (get_unanswered_questions 2 1 sample_db))
  = get_unanswered_questions 2 1 sample_db.
Proof.
  apply (proj2 (get_unanswered_questions_strict sample_db 2 1)).
  - by rewrite !reverse_Permutation.
  - rewrite reverse_involutive. apply get_unanswered_questions_sorted.
Defined.

Lemma has_answered_same_answers (d1 d2 : db) (self quiz q : Z) :
  same_answers_of self d1 d2 →
  has_answered d1 self quiz q → has_answered d2 self quiz q.
Proof.
  intros [Hother Hla] (la_pk & la & a & ar & qr & Hl & Hst & Ha & Har & Hq & Hqr & Hqz).
  exists la_pk, la, a, ar, qr. split_and!; try done.
  - by apply Hla.
  - by rewrite <- Hother.
  - by rewrite <- Hother.
Qed.

Lemma same_answers_of_sym (self : Z) (d1 d2 : db) :
  same_answers_of self d1 d2 → same_answers_of self d2 d1.
Proof.
  intros [H1 H2]. split; [intros; symmetry; auto|].
  intros pk la Hst. symmetry. by apply H2.
Qed.

(** X11. Learners are kept apart: the result for a learner does not change
    when answers of other learners are added, changed or removed; and for a
    learner without any recorded answer it is the whole ordered list of the
    questions of the quiz. *)
Theorem get_unanswered_questions_isolated (self quiz : Z) :
  (∀ d1 d2 : db, same_answers_of self d1 d2 →
     get_unanswered_questions self quiz d1 = get_unanswered_questions self quiz d2)
  ∧ (∀ d : db,
       (∀ (pk : Z) (la : row), d !! (LearnerAnswer, pk) = Some la →
          fk "student" la ≠ Some self) →
       get_unanswered_questions self quiz d = order_by_order_id (questions quiz d)).
Proof.
  split.
  - intros d1 d2 Hd. apply get_unanswered_questions_ext.
    + apply questions_same_table. intros pk. destruct Hd as [Hother _].
      by apply Hother.
    + intros q. split; apply has_answered_same_answers; [done|].
      by apply same_answers_of_sym.
  - intros d Hnone. unfold get_unanswered_questions, exclude_pk_in. f_equal.
    apply map_filter_id. intros k r _. simpl.
    rewrite elem_of_answered_questions.
    intros (la_pk & la & ? & ? & ? & Hl & Hst & _). by apply (Hnone la_pk la).
Qed.

Lemma get_unanswered_questions_isolated_witness :
  get_unanswered_questions 2 1 sample_db
  = get_unanswered_questions 2 1
      (<[(LearnerAnswer, 8) := learner_answer_row 3 10 1]> sample_db).
Proof.
  apply (proj1 (get_unanswered_questions_isolated 2 1)). split.
  - intros [m pk] Hm. rewrite lookup_insert_ne; [done|]. intros [= <- _]. done.
  - intros pk la Hst. destruct (decide (pk = 8)) as [->|Hne].
    + rewrite lookup_insert_eq. split; [done|].
      intros [= <-]. by vm_compute in Hst.
    + rewrite lookup_insert_ne; [done|]. intros [= ?]. done.
Defined.

Lemma has_answered_insert (d : db) (self quiz pk a q q' : Z) (la ar qr : row) :
  d !! (LearnerAnswer, pk) = None →
  fk "student" la = Some self → fk "answer" la = Some a →
  d !! (Answer, a) = Some ar → fk "question" ar = Some q →
  d !! (Question, q) = Some qr → fk "quiz" qr = Some quiz →
  has_answered (<[(LearnerAnswer, pk) := la]> d) self quiz q' ↔
  has_answered d self quiz q' ∨ q' = q.
Proof.
  intros Hfresh Hst Ha Har Hq Hqr Hqz. split.
  - intros (la_pk & la' & a' & ar' & qr' & Hl & Hst' & Ha' & Har' & Hq' & Hqr' & Hqz').
    rewrite lookup_insert_ne in Har' by done.
    rewrite lookup_insert_ne in Hqr' by done.
    apply lookup_insert_Some in Hl as [[Hk <-]|[Hne Hl]].
    + right. congruence.
    + left. by exists la_pk, la', a', ar', qr'.
  - intros [(la_pk & la' & a' & ar' & qr' & Hl & Hrest)| ->].
    + exists la_pk, la', a', ar', qr'.
      rewrite !lookup_insert_ne; [done|done|done|].
      intros [= <-]. by rewrite Hfresh in Hl.
    + exists pk, la, a, ar, qr.
      rewrite lookup_insert_eq, !lookup_insert_ne by done. done.
Qed.

(** X12. Recording an answer takes its question, and only its question, off
    the list: once the learner's answer to an [Answer] of question [q] of the
    quiz is stored, the result is the former result without [q], in the same
    order. *)
Theorem get_unanswered_questions_after_answer (d : db) (self quiz pk a q : Z)
    (la ar qr : row) :
  d !! (LearnerAnswer, pk) = None →
  fk "student" la = Some self → fk "answer" la = Some a →
  d !! (Answer, a) = Some ar → fk "question" ar = Some q →
  d !! (Question, q) = Some qr → fk "quiz" qr = Some quiz →
  get_unanswered_questions self quiz (<[(LearnerAnswer, pk) := la]> d)
  = filter (λ kr : key * row, kr.1 ≠ (Question, q))
           (get_unanswered_questions self quiz d).
Proof.
  intros Hfresh Hst Ha Har Hq Hqr Hqz. symmetry.
  apply get_unanswered_questions_canonical.
  - apply StronglySorted_filter, get_unanswered_questions_sorted.
  - apply NoDup_filter, get_unanswered_questions_NoDup.
  - intros [[m q'] r]. rewrite list_elem_of_filter.
    rewrite !elem_of_get_unanswered_questions. simpl.
    rewrite (has_answered_insert d self quiz pk a q q' la ar qr) by done.
    split.
    + intros (Hne & Hr & -> & Hquiz & Hno). split_and!; try done.
      * by rewrite lookup_insert_ne.
      * intros [?| ->]; done.
    + intros (Hr & -> & Hquiz & Hno).
      rewrite lookup_insert_ne in Hr by done. split_and!; try done.
      * intros [= ->]. apply Hno. by right.
      * intros ?. apply Hno. by left.
Qed.

Lemma get_unanswered_questions_after_answer_witness :
  get_unanswered_questions 2 1
    (<[(LearnerAnswer, 8) := learner_answer_row 2 10 1]> sample_db)
  = filter (λ kr : key * row, kr.1 ≠ (Question, 1))
           (get_unanswered_questions 2 1 sample_db).
Proof.
  apply (get_unanswered_questions_after_answer sample_db 2 1 8 10 1
           (learner_answer_row 2 10 1) {[ "question" := VInt 1 ]} (question_row 1 3));
    reflexivity.
Defined.

(* ================================================================== *)
(** * Further properties of [Profile.clean] and [Notes.delete] *)

Lemma key_of_singleton (f : string) (r : row) (v : value) :
  r !! f = Some v → v ≠ VNull → key_of [f] r = Some [v].
Proof.
  intros Hr Hv. unfold key_of. cbn. unfold column. rewrite Hr.
  by destruct v.
Qed.

Lemma Profile_clean_raises (self : instance) (d : db) (e : string) :
  inst_fields self !! "email" = Some (VStr e) → e ≠ EmptyString →
  Profile_clean self d = Raise (ValidationError "Email already exists") ↔
  ∃ (pk' : Z) (r' : row), d !! (Profile, pk') = Some r' ∧ Some pk' ≠ inst_pk self
                          ∧ r' !! "email" = Some (VStr e).
Proof.
  intros He Hne. assert (getattr self "email" = VStr e) as Hg.
  { unfold getattr. by rewrite He. }
  unfold Profile_clean. rewrite Hg. simpl. rewrite bool_decide_eq_true_2 by done.
  simpl. destruct (exists_ _) eqn:Hq.
  - split; [intros _|done]. apply exists__true in Hq as ([m pk'] & r' & Hr').
    rewrite <- Hg in Hr'. apply lookup_same_email in Hr' as (Hr' & Hm & Hem & Hpk).
    simpl in Hm, Hpk. subst m. rewrite Hg in Hem. eauto.
  - split; [done|]. intros (pk' & r' & Hr' & Hpk & Hem).
    assert (exists_ (exclude_pk (inst_pk self)
              (filter_eq "email" (VStr e) (objects Profile d))) = true) as Hyes.
    { apply exists__true. exists (Profile, pk'), r'. rewrite <- Hg.
      apply lookup_same_email. by rewrite Hg. }
    by rewrite Hq in Hyes.
Qed.

(** X13. [clean] and the unique constraint of the store agree on a saved
    profile with a non-empty email: [clean] raises exactly when the email
    conflicts, under the constraint, with that of another stored profile, and
    passes exactly when it does not; and when [clean] raises, a save that
    skips it is refused with an integrity error and leaves the store as it
    was. *)
Theorem Profile_clean_agrees_with_save (self : instance) (d : db) (e : string)
    (pk : Z) :
  inst_pk self = Some pk →
  inst_fields self !! "email" = Some (VStr e) → e ≠ EmptyString →
  (Profile_clean self d = Raise (ValidationError "Email already exists") ↔
     unique_conflict Profile pk (inst_fields self) d ["email"])
  ∧ (Profile_clean self d = Ok () ↔
       ¬ unique_conflict Profile pk (inst_fields self) d ["email"])
  ∧ (Profile_clean self d = Raise (ValidationError "Email already exists") →
       save Profile pk (inst_fields self) d = (Raise IntegrityError, d)).
Proof.
  intros Hpk He Hne.
  assert (key_of ["email"] (inst_fields self) = Some [VStr e]) as Hkey
    by by apply key_of_singleton.
  assert (Profile_clean self d = Raise (ValidationError "Email already exists") ↔
          unique_conflict Profile pk (inst_fields self) d ["email"]) as Hiff.
  { rewrite (Profile_clean_raises self d e He Hne). split.
    - intros (pk' & r' & Hr' & Hother & Hem). exists (Profile, pk'), r'.
      split_and!; [done|done| |].
      + simpl. intros ->. by rewrite Hpk in Hother.
      + rewrite Hkey. by apply key_of_singleton.
    - intros ([m pk'] & r' & Hr' & Hm & Hne' & Hk). simpl in Hm, Hne'. subst m.
      apply key_of_inj in Hk; [|rewrite Hkey; by eexists].
      apply Forall_cons in Hk as [Hem _]. rewrite He in Hem.
      exists pk', r'. split_and!; [done| |done]. rewrite Hpk. by intros [= ->]. }
  split_and!.
  - done.
  - rewrite <- Hiff. unfold Profile_clean. by destruct (_ && _).
  - intros (pk' & r' & Hr' & Hother & Hem)%(Profile_clean_raises self d e He Hne).
    apply save_refused.
    apply (unique_conflict_refuses Profile pk pk' (inst_fields self) r' d ["email"]);
      [by_compute|done| |].
    + intros ->. by rewrite Hpk in Hother.
    + apply key_of_ext. repeat constructor. by rewrite He.
Qed.

Lemma Profile_clean_agrees_with_save_witness :
  ¬ unique_conflict Profile 2 (profile_row 2 "bob@example.org") sample_db ["email"]
  ∧ unique_conflict Profile 2 (profile_row 2 "ann@example.org") sample_db ["email"].
Proof.
  split.
  - destruct (Profile_clean_agrees_with_save
                (Instance Profile (Some 2) (profile_row 2 "bob@example.org"))
                sample_db "bob@example.org" 2 eq_refl eq_refl ltac:(done))
      as (_ & Hok & _).
    apply Hok. by vm_compute.
  - destruct (Profile_clean_agrees_with_save
                (Instance Profile (Some 2) (profile_row 2 "ann@example.org"))
                sample_db "ann@example.org" 2 eq_refl eq_refl ltac:(done))
      as (Hraise & _ & _).
    apply Hraise. by vm_compute.
Defined.

(** X14. With an empty email [clean] passes whatever is stored, although the
    store counts the empty email like any other: the save of a second
    profile with an empty email is refused. *)
Theorem Profile_clean_empty_email (self : instance) (d : db) (pk pk' : Z) (r' : row) :
  inst_pk self = Some pk →
  inst_fields self !! "email" = Some (VStr EmptyString) →
  d !! (Profile, pk') = Some r' → pk' ≠ pk →
  r' !! "email" = Some (VStr EmptyString) →
  Profile_clean self d = Ok ()
  ∧ save Profile pk (inst_fields self) d = (Raise IntegrityError, d).
Proof.
  intros Hpk He Hr' Hne Hem. split.
  - unfold Profile_clean, getattr. by rewrite He.
  - apply save_refused.
    apply (unique_conflict_refuses Profile pk pk' (inst_fields self) r' d ["email"]);
      [by_compute|done|done|].
    apply key_of_ext. repeat constructor. by rewrite He.
Qed.

Lemma Profile_clean_empty_email_witness :
  Profile_clean (Instance Profile (Some 2) (profile_row 2 EmptyString))
                (<[(Profile, 1) := profile_row 1 EmptyString]> sample_db) = Ok ()
  ∧ save Profile 2 (profile_row 2 EmptyString)
         (<[(Profile, 1) := profile_row 1 EmptyString]> sample_db)
    = (Raise IntegrityError, <[(Profile, 1) := profile_row 1 EmptyString]> sample_db).
Proof.
  apply (Profile_clean_empty_email
           (Instance Profile (Some 2) (profile_row 2 EmptyString))
           (<[(Profile, 1) := profile_row 1 EmptyString]> sample_db)
           2 1 (profile_row 1 EmptyString)); [done|reflexivity| |done|reflexivity].
  apply lookup_insert_eq.
Defined.

(** X15. [Notes.delete] on an instance that was never saved raises, but only
    after the attachments are discarded: the blobs are gone from storage,
    the store is untouched. *)
Theorem Notes_delete_unsaved (self : instance) (w : world) :
  inst_pk self = None →
  ∃ w' : world,
    Notes_delete self w = (Raise ValueError, w')
    ∧ w_db w' = w_db w
    ∧ w_log w' = (w_log w ++ (StorageDelete <$> blob self "file")
                  ++ (StorageDelete <$> blob self "cover"))%list
    ∧ (∀ name : string, name ∈ w_storage w' ↔
         name ∈ w_storage w ∧ name ∉ (blob self "file" ++ blob self "cover")%list).
Proof.
  intros Hpk. unfold Notes_delete.
  destruct (FieldFile_delete_no_save "file" self w) as (s1 & H1 & Hm1 & Hpk1 & Hg1).
  set (w1 := World (w_db w) (w_storage w ∖ list_to_set (blob self "file"))
                   (w_log w ++ (StorageDelete <$> blob self "file"))) in *.
  destruct (FieldFile_delete_no_save "cover" s1 w1) as (s2 & H2 & Hm2 & Hpk2 & Hg2).
  assert (blob s1 "cover" = blob self "cover") as Hb.
  { unfold blob. by rewrite Hg1. }
  rewrite Hb in H2.
  eexists. split.
  { unfold mbind at 1, M_bind at 1. rewrite H1.
    unfold mbind at 1, M_bind at 1. rewrite H2.
    unfold Model_delete_instance. rewrite Hpk2, Hpk1, Hpk. done. }
  simpl. split_and!; [done|by rewrite <- !app_assoc|].
  intros name. rewrite !elem_of_difference, !elem_of_list_to_set, elem_of_app.
  tauto.
Qed.

Lemma Notes_delete_unsaved_witness :
  ∃ w' : world,
    Notes_delete (Instance Notes None notes_row) sample_world = (Raise ValueError, w')
    ∧ w_db w' = sample_db.
Proof.
  destruct (Notes_delete_unsaved (Instance Notes None notes_row) sample_world eq_refl)
    as (w' & Hrun & Hdb & _).
  by exists w'.
Defined.

(** X16. Deleting a course removes its notes by cascade without calling
    [Notes.delete]: the rows of the notes are gone, blob storage is as it
    was. *)
Theorem Course_delete_keeps_blobs (self : instance) (w : world) (c n : Z) (r : row) :
  inst_model self = Course → inst_pk self = Some c →
  w_db w !! (Notes, n) = Some r → fk "course" r = Some c →
  ∃ (self' : instance) (w' : world),
    Model_delete_instance self w = (Ok self', w')
    ∧ w_db w' !! (Notes, n) = None
    ∧ w_storage w' = w_storage w.
Proof.
  intros Hm Hpk Hr Hc. unfold Model_delete_instance. rewrite Hpk, Hm.
  eexists _, _. split; [done|]. simpl. split; [|done].
  apply lookup_Model_delete_None, elem_of_Collector_collect, rtc_once.
  exists r, (ForeignKey "course" Course CASCADE). split_and!; [done|by_compute|].
  unfold fk_target. simpl. by rewrite Hc.
Qed.

Lemma Course_delete_keeps_blobs_witness :
  ∃ (self' : instance) (w' : world),
    Model_delete_instance (Instance Course (Some 1) {[ "name" := VStr "Python Basics" ]})
      sample_world = (Ok self', w')
    ∧ w_db w' !! (Notes, 4) = None
    ∧ w_storage w' = w_storage sample_world.
Proof.
  apply (Course_delete_keeps_blobs _ sample_world 1 4 notes_row); reflexivity.
Defined.

(* ================================================================== *)
(** * Further properties of the declarations *)

(** X19. Every declared default of a validated field passes the validators
    of that field. *)
Theorem defaults_pass_validators (m : model) (f : string) (vs : list validator)
    (v : value) :
  (f, vs) ∈ field_validators m → (f, v) ∈ defaults m →
  ∃ a : Q, to_number v = Some a ∧ run_validators vs a = [].
Proof.
  intros Hvs Hv.
  assert (Forall (λ fvs : string * list validator,
            Forall (λ fv : string * value, fv.1 = fvs.1 → passes fvs.2 fv.2)
                   (defaults m)) (field_validators m)) as Hall.
  { destruct m; by_compute. }
  rewrite Forall_forall in Hall. specialize (Hall _ Hvs).
  rewrite Forall_forall in Hall. specialize (Hall _ Hv eq_refl).
  unfold passes in Hall. simpl in Hall.
  destruct (to_number v) as [a|]; [by exists a|done].
Qed.

Lemma defaults_pass_validators_witness :
  ∃ a : Q, to_number (VFloat 70) = Some a
           ∧ run_validators [MinValueValidator 0; MaxValueValidator 100] a = [].
Proof.
  apply (defaults_pass_validators Quiz "passing_score"); by_compute.
Defined.

(** X20. The choice fields are declared consistently: every choice fits the
    maximal length of its field, the default of the field is one of its
    choices, and no choice is listed twice. *)
Theorem choices_consistent (m : model) (f : string) (cs : list string) :
  (f, cs) ∈ choices m →
  (∃ n : nat, (f, n) ∈ max_length m ∧ Forall (λ c, (String.length c ≤ n)%nat) cs)
  ∧ (∃ c : string, (f, VStr c) ∈ defaults m ∧ c ∈ cs)
  ∧ NoDup cs.
Proof.
  intros Hcs.
  assert (Forall (λ fcs : string * list string,
            Exists (λ fn : string * nat, fn.1 = fcs.1
                      ∧ Forall (λ c, (String.length c ≤ fn.2)%nat) fcs.2) (max_length m)
            ∧ Exists (λ c, (fcs.1, VStr c) ∈ defaults m) fcs.2
            ∧ NoDup fcs.2) (choices m)) as Hall.
  { destruct m; by_compute. }
  rewrite Forall_forall in Hall. destruct (Hall _ Hcs) as (Hlen & Hdef & Hnd).
  simpl in *. split_and!; [| |done].
  - apply Exists_exists in Hlen as ([f' n] & Hin & Hf & Hfit). simpl in *. subst f'.
    by exists n.
  - apply Exists_exists in Hdef as (c & Hc & Hd). by exists c.
Qed.

Lemma choices_consistent_witness :
  ∃ c : string, ("status", VStr c) ∈ defaults Quiz
                ∧ c ∈ ["draft"; "published"; "archived"].
Proof.
  apply (choices_consistent Quiz "status" ["draft"; "published"; "archived"]).
  by_compute.
Defined.

(** ** [Course.get_html_badge] *)

Lemma count_char_app (c : ascii) (s1 s2 : string) :
  count_char c (s1 +:+ s2) = (count_char c s1 + count_char c s2)%nat.
Proof. induction s1 as [|c' s1 IH]; simpl; [done|]. rewrite IH. lia. Qed.

Lemma string_length_app (s1 s2 : string) :
  String.length (s1 +:+ s2) = (String.length s1 + String.length s2)%nat.
Proof. induction s1 as [|c' s1 IH]; simpl; [done|]. by rewrite IH. Qed.

(** The characters that [escape] leaves no occurrence of. *)
Lemma count_char_escape_char (c c' : ascii) :
  c ∈ ["<"%char; ">"%char; dquote; "'"%char] → count_char c (escape_char c') = O.
Proof.
  intros Hc. unfold escape_char.
  repeat case_decide; subst;
    repeat (apply elem_of_cons in Hc as [->|Hc]); try (by apply elem_of_nil in Hc);
    try reflexivity; simpl; by rewrite decide_False.
Qed.

Lemma count_char_escape (c : ascii) (s : string) :
  c ∈ ["<"%char; ">"%char; dquote; "'"%char] → count_char c (escape s) = O.
Proof.
  intros Hc. induction s as [|c' s IH]; simpl; [done|].
  by rewrite count_char_app, count_char_escape_char, IH.
Qed.

(** X21. Whatever the name and the colour of the course are, the badge is one
    element: it holds the two opening and the two closing angle brackets of
    the template and the four double quotes of its two attributes, and no
    single quote; name and colour add none. *)
Theorem get_html_badge_one_element (name color : string) :
  count_char "<" (get_html_badge name color) = 2%nat
  ∧ count_char ">" (get_html_badge name color) = 2%nat
  ∧ count_char dquote (get_html_badge name color) = 4%nat
  ∧ count_char "'" (get_html_badge name color) = 0%nat.
Proof.
  unfold get_html_badge. split_and!;
    repeat (rewrite count_char_app || (simpl count_char; rewrite ?count_char_app));
    rewrite !count_char_escape by by_compute; reflexivity.
Qed.

Lemma length_escape_char (c : ascii) :
  String.length (escape_char c)
  = (1 + 4 * count_char "&" (String c EmptyString)
       + 3 * count_char "<" (String c EmptyString)
       + 3 * count_char ">" (String c EmptyString)
       + 5 * count_char dquote (String c EmptyString)
       + 5 * count_char "'" (String c EmptyString))%nat.
Proof.
  unfold escape_char. repeat case_decide; subst; try reflexivity.
  simpl. by rewrite !decide_False.
Qed.

Lemma escape_plain (s : string) :
  count_char "&" s = O → count_char "<" s = O → count_char ">" s = O →
  count_char dquote s = O → count_char "'" s = O → escape s = s.
Proof.
  induction s as [|c s IH]; [done|]. cbn [escape count_char].
  intros Ha Hl Hg Hd Hq.
  destruct (decide (c = "&"%char)) as [|Hna]; [lia|].
  destruct (decide (c = "<"%char)) as [|Hnl]; [lia|].
  destruct (decide (c = ">"%char)) as [|Hng]; [lia|].
  destruct (decide (c = dquote)) as [|Hnd]; [lia|].
  destruct (decide (c = "'"%char)) as [|Hnq]; [lia|].
  unfold escape_char. rewrite !decide_False by done. simpl. f_equal.
  apply IH; lia.
Qed.

(** X22. [escape] lengthens a text by four characters for each ampersand,
    three for each angle bracket and five for each quote; it returns the
    text itself exactly when the text has none of these characters, and then
    the badge shows name and colour as they are. *)
Theorem escape_plain_text (s : string) :
  String.length (escape s)
  = (String.length s + 4 * count_char "&" s + 3 * count_char "<" s
       + 3 * count_char ">" s + 5 * count_char dquote s + 5 * count_char "'" s)%nat
  ∧ (escape s = s ↔
     count_char "&" s = O ∧ count_char "<" s = O ∧ count_char ">" s = O
     ∧ count_char dquote s = O ∧ count_char "'" s = O)
  ∧ (∀ t : string, escape s = s → escape t = t →
       get_html_badge s t
       = "<span class=" +:+ String dquote "badge badge-primary" +:+ String dquote " style="
         +:+ String dquote "background-color: " +:+ t +:+ String dquote ">"
         +:+ s +:+ "</span>").
Proof.
  assert (String.length (escape s)
    = (String.length s + 4 * count_char "&" s + 3 * count_char "<" s
       + 3 * count_char ">" s + 5 * count_char dquote s + 5 * count_char "'" s)%nat)
    as Hlen.
  { induction s as [|c s IH]; [done|].
    cbn [escape]. rewrite string_length_app, length_escape_char, IH.
    cbn [count_char String.length]. lia. }
  split_and!; [done| |].
  - split.
    + intros Heq. rewrite Heq in Hlen. lia.
    + intros (Ha & Hl & Hg & Hd & Hq). by apply escape_plain.
  - intros t Hs Ht. unfold get_html_badge. by rewrite Hs, Ht.
Qed.

Lemma escape_plain_text_witness :
  get_html_badge "Python Basics" "#007bff"
  = "<span class=" +:+ String dquote "badge badge-primary" +:+ String dquote " style="
    +:+ String dquote "background-color: " +:+ "#007bff" +:+ String dquote ">"
    +:+ "Python Basics" +:+ "</span>".
Proof.
  destruct (escape_plain_text "Python Basics") as (_ & _ & Hbadge).
  apply Hbadge; reflexivity.
Defined.

Lemma blob_getattr (self self' : instance) (f : string) :
  getattr self' f = getattr self f → blob self' f = blob self f.
Proof. unfold blob. by intros ->. Qed.

(** After the attachment is discarded the attribute names no blob. *)
Lemma FieldFile_delete_blob_gone (f : string) (self : instance) (w : world) :
  ∃ self',
    (if truthy (getattr self f) then FieldFile_delete f false self else mret self) w
    = (Ok self',
       World (w_db w) (w_storage w ∖ list_to_set (blob self f))
             (w_log w ++ (StorageDelete <$> blob self f)))
    ∧ inst_model self' = inst_model self ∧ inst_pk self' = inst_pk self
    ∧ blob self' f = []
    ∧ ∀ g, f ≠ g → getattr self' g = getattr self g.
Proof.
  unfold FieldFile_delete, blob.
  destruct (getattr self f) as [|z|name|b|q] eqn:Hf; simpl.
  - exists self. destruct w. simpl.
    rewrite app_nil_r, difference_empty_L, Hf. done.
  - exists self. destruct w, (bool_decide (z ≠ 0)); simpl;
      rewrite app_nil_r, difference_empty_L, Hf; done.
  - destruct (decide (name = EmptyString)) as [->|Hne].
    + exists self. destruct w. simpl.
      rewrite app_nil_r, difference_empty_L, Hf. done.
    + rewrite bool_decide_eq_true_2 by done. simpl.
      exists (setattr self f VNull). split_and!; try done.
      * unfold mbind, M_bind, storage_delete, mret, M_ret. simpl.
        by rewrite union_empty_r_L.
      * unfold getattr, setattr. simpl. by rewrite lookup_insert_eq.
      * intros g Hg. by apply getattr_setattr_ne.
  - exists self. destruct w, b; simpl;
      rewrite app_nil_r, difference_empty_L, Hf; done.
  - exists self. destruct w, (negb (Qeq_bool q 0)); simpl;
      rewrite app_nil_r, difference_empty_L, Hf; done.
Qed.

(** X23. A note cannot be deleted twice: after a successful [delete] the
    instance has no primary key and names no blob, so a second [delete] on it
    raises and leaves store, storage and trace as they are. *)
Theorem Notes_delete_twice (self : instance) (w : world) (pk : Z) :
  inst_model self = Notes → inst_pk self = Some pk →
  ∃ (self' : instance) (w' : world),
    Notes_delete self w = (Ok self', w')
    ∧ Notes_delete self' w' = (Raise ValueError, w').
Proof.
  intros Hm Hpk.
  destruct (FieldFile_delete_blob_gone "file" self w)
    as (s1 & H1 & Hm1 & Hpk1 & Hb1 & Hg1).
  set (w1 := World (w_db w) (w_storage w ∖ list_to_set (blob self "file"))
                   (w_log w ++ (StorageDelete <$> blob self "file"))) in *.
  destruct (FieldFile_delete_blob_gone "cover" s1 w1)
    as (s2 & H2 & Hm2 & Hpk2 & Hb2 & Hg2).
  set (w2 := World (w_db w1) (w_storage w1 ∖ list_to_set (blob s1 "cover"))
                   (w_log w1 ++ (StorageDelete <$> blob s1 "cover"))) in *.
  set (self' := Instance (inst_model s2) None (inst_fields s2)).
  set (w' := World (Model_delete (inst_model s2, pk) (w_db w2)) (w_storage w2)
                   (w_log w2 ++ [RowsDelete (Collector_collect (w_db w2)
                                               (inst_model s2, pk))])).
  assert (Notes_delete self w = (Ok self', w')) as Hfirst.
  { unfold Notes_delete.
    unfold mbind at 1, M_bind at 1. rewrite H1.
    unfold mbind at 1, M_bind at 1. rewrite H2.
    unfold Model_delete_instance. by rewrite Hpk2, Hpk1, Hpk. }
  exists self', w'. split; [done|]. clear Hfirst. clearbody w'.
  destruct w' as [d' st' lg'].
  assert (blob self' "file" = []) as Hf'.
  { rewrite (blob_getattr s2 self') by done.
    rewrite (blob_getattr s1 s2) by (by apply Hg2). done. }
  assert (blob self' "cover" = []) as Hc'.
  { by rewrite (blob_getattr s2 self'). }
  destruct (FieldFile_delete_no_save "file" self' (World d' st' lg')) as (t1 & G1 & _ & Gpk1 & Gg1).
  rewrite Hf' in G1. simpl in G1. rewrite app_nil_r, difference_empty_L in G1.
  assert (blob t1 "cover" = []) as Ht1.
  { rewrite (blob_getattr self' t1) by (by apply Gg1). done. }
  destruct (FieldFile_delete_no_save "cover" t1 (World d' st' lg')) as (t2 & G2 & _ & Gpk2 & _).
  rewrite Ht1 in G2. simpl in G2. rewrite app_nil_r, difference_empty_L in G2.
  unfold Notes_delete.
  unfold mbind at 1, M_bind at 1. rewrite G1.
  unfold mbind at 1, M_bind at 1. rewrite G2.
  unfold Model_delete_instance. by rewrite Gpk2, Gpk1.
Qed.

Lemma Notes_delete_twice_witness :
  ∃ (self' : instance) (w' : world),
    Notes_delete sample_notes sample_world = (Ok self', w')
    ∧ Notes_delete self' w' = (Raise ValueError, w').
Proof. apply (Notes_delete_twice sample_notes sample_world 4); reflexivity. Defined.

(** X24. Every declared string default fits the maximal length declared for
    its field (the colour default fills its seven characters exactly). *)
Theorem defaults_fit_max_length (m : model) (f : string) (n : nat) (c : string) :
  (f, n) ∈ max_length m → (f, VStr c) ∈ defaults m → (String.length c ≤ n)%nat.
Proof.
  intros Hn Hc.
  assert (Forall (λ fn : string * nat,
            Forall (λ fv : string * value, fv.1 = fn.1 →
              match fv.2 with
              | VStr c => (String.length c ≤ fn.2)%nat
              | _ => True
              end) (defaults m)) (max_length m)) as Hall.
  { destruct m; repeat constructor; simpl; intros; try done; try lia. }
  rewrite Forall_forall in Hall. specialize (Hall _ Hn).
  rewrite Forall_forall in Hall. exact (Hall _ Hc eq_refl).
Qed.

Lemma defaults_fit_max_length_witness : (String.length "#007bff" ≤ 7)%nat.
Proof. apply (defaults_fit_max_length Course "color"); by_compute. Defined.
